(** * Markdown Documentation Assistant: a shallow embedding of [src/index.js]

    The script downloads one markdown document, splits it into overlapping
    chunks, indexes the chunks in an in-memory vector store and then answers
    questions typed on standard input until the line [exit] is read.

    [src/index.js] is the only source file.  The text splitter, the vector
    store, the embedding client and the chat model are third-party packages
    whose code is not part of the repository: the splitter and the store are
    modelled from the specification (each such definition says so), the
    network, the embedding client and the chat model are fields of a
    [World]. *)

From Stdlib Require Import List String Ascii Bool Arith ZArith Lia Floats.
From Stdlib Require Import Sorting.Sorted DecimalString.
Import ListNotations.
Local Open Scope nat_scope.
Local Open Scope list_scope.
Local Open Scope string_scope.

(* ================================================================== *)
(** * JavaScript strings and arrays                                    *)
(* ================================================================== *)

(** Strings are sequences of code units; the model covers the code units
    0..255 (one [ascii] each), which is enough for every literal the script
    compares against. *)
Module Js.

Definition nl : string := String "010"%char EmptyString.

(** The double quote. *)
Definition quote : string := String (ascii_of_nat 34) EmptyString.

(** White space and line terminators removed by [String.prototype.trim],
    restricted to the code units below 256: TAB, LF, VT, FF, CR, SP and
    NBSP. *)
Definition isWhiteSpace (c : ascii) : bool :=
  let n := nat_of_ascii c in
  (((9 <=? n) && (n <=? 13)) || (n =? 32) || (n =? 160))%nat.

Fixpoint trimStart (s : string) : string :=
  match s with
  | EmptyString => EmptyString
  | String c s' => if isWhiteSpace c then trimStart s' else s
  end.

(** Drops the trailing white space: a character is kept when it is not
    white space or when something is kept after it. *)
Fixpoint trimEnd (s : string) : string :=
  match s with
  | EmptyString => EmptyString
  | String c s' =>
      match trimEnd s' with
      | EmptyString => if isWhiteSpace c then EmptyString
                       else String c EmptyString
      | t => String c t
      end
  end.

(** [String.prototype.trim]. *)
Definition trim (s : string) : string := trimEnd (trimStart s).

(** Lower-case mapping of one code unit below 256: [A-Z] and the
    Latin-1 capitals U+00C0..U+00DE (U+00D7, the multiplication sign, has
    no case). *)
Definition lowerChar (c : ascii) : ascii :=
  let n := nat_of_ascii c in
  if (((65 <=? n) && (n <=? 90))
      || ((192 <=? n) && (n <=? 222) && negb (n =? 215)))%nat
  then ascii_of_nat (n + 32) else c.

(** [String.prototype.toLowerCase]. *)
Fixpoint toLowerCase (s : string) : string :=
  match s with
  | EmptyString => EmptyString
  | String c s' => String (lowerChar c) (toLowerCase s')
  end.

(** [Array.prototype.join] as ECMAScript defines it: the result starts
    empty, and for k = 0, 1, ... the separator is appended when k > 0 and
    then the k-th element. *)
Fixpoint join_from (sep : string) (k : nat) (R : string) (xs : list string)
  : string :=
  match xs with
  | [] => R
  | x :: xs' =>
      let R1 := if (0 <? k)%nat then R ++ sep else R in
      join_from sep (S k) (R1 ++ x) xs'
  end.

Definition join (sep : string) (xs : list string) : string :=
  join_from sep 0 "" xs.

(** Decimal rendering of a number in a template literal. *)
Definition ofNat (n : nat) : string := NilEmpty.string_of_uint (Nat.to_uint n).

(** The last [n] code units of [s] (all of [s] when it is shorter). *)
Definition takeLast (n : nat) (s : string) : string :=
  substring (String.length s - n) n s.

(** The first [n] code units of [s]. *)
Definition takeFirst (n : nat) (s : string) : string := substring 0 n s.

(** [s] repeated [n] times: [String.prototype.repeat]. *)
Fixpoint repeat (s : string) (n : nat) : string :=
  match n with
  | 0 => ""
  | S n' => s ++ repeat s n'
  end.

End Js.

(* ================================================================== *)
(** * Documents                                                        *)
(* ================================================================== *)

(** A chunk of the source text: the [Document] of the script, with its
    [pageContent] and its [metadata.source]; the specification calls it a
    Segment ([text], [sourceLocator], [sequenceIndex]). *)
Record Document := {
  pageContent : string;
  source : string;
  sequenceIndex : nat
}.

(** What a rejected promise or a [throw] carries. *)
Record JsError := { message : string }.

(* ================================================================== *)
(** * The text splitter                                                *)
(* ================================================================== *)

Module Chunker.

(** Modelled from the spec: the splitter is [RecursiveCharacterTextSplitter]
    of the package @langchain/textsplitters, whose code is not in src/; this
    module follows the chunker of section 4.1.  [ConfigError] is its only
    failure. *)
Inductive ChunkError := ConfigError.

(** Modelled from the spec: the splitter's pieces (its code is not in
    src/), as steps 2 and 3 of section 4.1 produce them.  [glue] is what
    step 5 puts between the piece and the one before it when both fall in
    one window: the joiner of the separator at which the two were split
    apart. *)
Record Piece := { body : string; glue : string }.

(** Modelled from the spec: the splitter's joiner (its code is not in
    src/), step 5 of section 4.1: a single space for the pieces of a
    non-empty separator, nothing for the pieces of the empty separator. *)
Definition glue_of (sep : string) : string :=
  if sep =? "" then "" else " ".

(** Modelled from the spec: the splitter's test of step 2 (its code is not
    in src/), [sep] "actually occurs in" [text]; the empty separator occurs
    in every text. *)
Fixpoint occurs (sep text : string) : bool :=
  prefix sep text
  || match text with
     | EmptyString => false
     | String _ rest => occurs sep rest
     end.

(** Modelled from the spec: the splitter's split of step 2 (its code is
    not in src/): the pieces of [text] between the occurrences of a
    non-empty [sep], scanned from the left; [skip] counts
    the code units of a separator still to be dropped and [cur] is the
    piece being read. *)
Fixpoint split_go (sep : string) (skip : nat) (cur text : string)
  : list string :=
  match text with
  | EmptyString => [cur]
  | String c rest =>
      match skip with
      | S k => split_go sep k cur rest
      | O =>
          if prefix sep text
          then cur :: split_go sep (String.length sep - 1) "" rest
          else split_go sep 0 (cur ++ String c "") rest
      end
  end.

(** Modelled from the spec: the splitter's split at the empty separator
    (its code is not in src/), which "splits between every character". *)
Definition chars (text : string) : list string :=
  map (fun c => String c "") (list_ascii_of_string text).

(** Modelled from the spec: the splitter's split of step 2 (its code is
    not in src/), at every occurrence of [sep], the separator dropped. *)
Definition split (sep text : string) : list string :=
  if sep =? "" then chars text else split_go sep 0 "" text.

(** Modelled from the spec: the splitter's filter (its code is not in
    src/), "filter zero-length pieces before packing". *)
Definition nonEmpty (s : string) : bool := negb (s =? "").

(** Modelled from the spec: the splitter's step 3 (its code is not in
    src/): the first piece of a piece that was split again keeps the glue of
    the separator that produced the piece itself. *)
Definition reglue (g : string) (ps : list Piece) : list Piece :=
  match ps with
  | [] => []
  | p :: rest => {| body := body p; glue := g |} :: rest
  end.

(** Modelled from the spec: the splitter's steps 1 to 3 of section 4.1
    (its code is not in src/).  A text of at
    most [maxSize] code units is one piece; otherwise it is split at the
    first separator that occurs in it, and a piece still longer than
    [maxSize] is split again with the separators after that one.  A text
    in which no separator of the list occurs stays whole. *)
Fixpoint pieces (maxSize : nat) (separators : list string) (text : string)
  : list Piece :=
  if (String.length text <=? maxSize)%nat
  then [{| body := text; glue := "" |}]
  else
    match separators with
    | [] => [{| body := text; glue := "" |}]
    | sep :: finer =>
        if occurs sep text then
          flat_map
            (fun p =>
               if (maxSize <? String.length p)%nat
               then reglue (glue_of sep) (pieces maxSize finer p)
               else [{| body := p; glue := glue_of sep |}])
            (filter nonEmpty (split sep text))
        else pieces maxSize finer text
    end.

(** Modelled from the spec: the splitter's overlap rule (its code is not
    in src/).  Step 4 copies the trailing [overlap] code units of a closed
    window into the next one and then goes on adding pieces; it does not
    say what happens when that copy and the next piece together are longer
    than [maxSize] (section 9 lists the point as open).  [KeepOverlap] adds
    the piece all the same, [FitOverlap] starts the window with the piece
    alone in that case. *)
Inductive OverlapPolicy := KeepOverlap | FitOverlap.

(** Modelled from the spec: the splitter's step 5 (its code is not in
    src/), the running buffer with one more piece. *)
Definition add (buf : string) (p : Piece) : string :=
  if buf =? "" then body p else buf ++ glue p ++ body p.

(** Modelled from the spec: the splitter's step 4 (its code is not in
    src/), "close the current window as a Segment"; an empty buffer is no
    window. *)
Definition close (buf : string) : list string :=
  if buf =? "" then [] else [buf].

(** Modelled from the spec: the splitter's step 4 (its code is not in
    src/), "start the next window by first copying the trailing overlap
    characters from the closed window into the new buffer before continuing
    to add pieces". *)
Definition reopen (policy : OverlapPolicy) (maxSize overlap : nat)
    (closed : string) (p : Piece) : string :=
  let seeded := add (Js.takeLast overlap closed) p in
  match policy with
  | KeepOverlap => seeded
  | FitOverlap =>
      if (String.length seeded <=? maxSize)%nat then seeded else body p
  end.

(** Modelled from the spec: the splitter's step 4 (its code is not in
    src/), the greedy packing of the pieces into windows; [buf] is the
    running buffer. *)
Fixpoint pack (policy : OverlapPolicy) (maxSize overlap : nat)
    (buf : string) (ps : list Piece) : list string :=
  match ps with
  | [] => close buf
  | p :: rest =>
      if (String.length (add buf p) <=? maxSize)%nat
      then pack policy maxSize overlap (add buf p) rest
      else close buf
           ++ pack policy maxSize overlap
                (reopen policy maxSize overlap buf p) rest
  end%list.

(** Modelled from the spec: the splitter's contract (its code is not in
    src/), [chunk(text, maxSize, overlap, separators)] of section 4.1:
    [ConfigError] unless [maxSize > 0] and [0 <= overlap < maxSize]; no
    Segment for the empty text. *)
Definition chunk (policy : OverlapPolicy) (text : string)
    (maxSize overlap : nat) (separators : list string)
  : ChunkError + list string :=
  if ((0 <? maxSize) && (overlap <? maxSize))%nat then
    inr (if text =? "" then []
         else pack policy maxSize overlap "" (pieces maxSize separators text))
  else inl ConfigError.

(** Modelled from the spec: the splitter's Segments (its code is not in
    src/), section 3: the texts in order, each with the locator of the
    document it was cut from and its position. *)
Fixpoint number (src : string) (i : nat) (texts : list string)
  : list Document :=
  match texts with
  | [] => []
  | t :: rest =>
      {| pageContent := t; source := src; sequenceIndex := i |}
      :: number src (S i) rest
  end.

End Chunker.

(* ================================================================== *)
(** * The vector store                                                 *)
(* ================================================================== *)

Module VectorIndex.

(** Modelled from the spec: the store is [MemoryVectorStore] of the package
    langchain, whose code is not in src/; this module follows the Vector
    Index of section 4.2.  Components are floating-point numbers, here the
    binary64 numbers of the runtime with their own arithmetic: sums and
    products round and overflow, and a quotient of infinities is not a
    number. *)
Definition Vector := list float.

(** Modelled from the spec: the store's failures (its code is not in
    src/), section 4.2. *)
Inductive IndexError := DimensionMismatch | EmptyIndex.

(** Modelled from the spec: the store's entries (its code is not in src/),
    the IndexEntry of section 3. *)
Record IndexEntry := { vector : Vector; segment : Document }.

(** Modelled from the spec: the store (its code is not in src/): the
    dimensionality [D] of section 3 and the entries in the order loaded. *)
Record Index := { dimension : nat; entries : list IndexEntry }.

(** Modelled from the spec: the store's check (its code is not in src/)
    that a vector has [d] components. *)
Definition hasDimension (d : nat) (e : Vector * Document) : bool :=
  (List.length (fst e) =? d)%nat.

(** Modelled from the spec: the store's entry (its code is not in src/)
    for a vector and its Segment. *)
Definition entryOf (e : Vector * Document) : IndexEntry :=
  {| vector := fst e; segment := snd e |}.

(** Modelled from the spec: the store's [build] of section 4.2 (its code is
    not in src/), which "fails with
    DimensionMismatch if vectors have differing lengths, fails with
    EmptyIndex if the sequence is empty". *)
Definition build (es : list (Vector * Document)) : IndexError + Index :=
  match es with
  | [] => inl EmptyIndex
  | (v, _) :: _ =>
      if forallb (hasDimension (List.length v)) es
      then inr {| dimension := List.length v; entries := map entryOf es |}
      else inl DimensionMismatch
  end.

(** Modelled from the spec: the store's dot product (its code is not in
    src/). *)
Definition dot (a b : Vector) : float :=
  fold_right PrimFloat.add 0%float
    (map (fun p => PrimFloat.mul (fst p) (snd p)) (combine a b)).

(** Modelled from the spec: the store's cosine similarity (its code is not
    in src/), [dot(a,b) / (|a| * |b|)], and 0 when either norm is zero;
    [sqrt] is the square root of the runtime. *)
Definition cosine (sqrt : float -> float) (a b : Vector) : float :=
  let na := sqrt (dot a a) in
  let nb := sqrt (dot b b) in
  if PrimFloat.eqb na 0%float || PrimFloat.eqb nb 0%float then 0%float
  else PrimFloat.div (dot a b) (PrimFloat.mul na nb).

(** Modelled from the spec: the store's hits (its code is not in src/), one
    element of the RetrievalResult of section 3. *)
Record Hit := { hit : Document; score : float }.

(** Modelled from the spec: the store's order of the hits (its code is not
    in src/), "Sorts descending by score; ties broken by ascending
    sequenceIndex". *)
Definition ranksBefore (a b : Hit) : bool :=
  if PrimFloat.eqb (score a) (score b)
  then (sequenceIndex (hit a) <=? sequenceIndex (hit b))%nat
  else PrimFloat.leb (score b) (score a).

(** Modelled from the spec: the store's sort (its code is not in src/), a
    stable insertion sort; [insert] puts [x] before the first hit it ranks
    before. *)
Fixpoint insert (x : Hit) (l : list Hit) : list Hit :=
  match l with
  | [] => [x]
  | y :: l' => if ranksBefore x y then x :: l else y :: insert x l'
  end.

(** Modelled from the spec: the store's sort (its code is not in src/). *)
Definition rank (l : list Hit) : list Hit := fold_right insert [] l.

(** Modelled from the spec: the store's scoring of one entry against the
    query vector (its code is not in src/). *)
Definition scoreOf (sqrt : float -> float) (q : Vector) (e : IndexEntry)
  : Hit :=
  {| hit := segment e; score := cosine sqrt q (vector e) |}.

(** Modelled from the spec: the store's [query] of section 4.2 (its code is
    not in src/): [DimensionMismatch]
    when the query vector has another length than the stored ones, a
    linear scan scoring every entry, the ranking, and [k] clamped to the
    number of entries. *)
Definition query (sqrt : float -> float) (ix : Index) (q : Vector)
    (k : nat) : IndexError + list Hit :=
  if (List.length q =? dimension ix)%nat
  then inr (firstn k (rank (map (scoreOf sqrt q) (entries ix))))
  else inl DimensionMismatch.

(** Modelled from the spec: the order of a RetrievalResult, as a
    proposition (the store's code is not in src/): a higher score first, and
    of two equal scores the lower sequence index first.  The comparisons
    are those of the floating-point numbers; a score that is not a number
    is neither above, below nor equal to any score. *)
Definition RanksBefore (a b : Hit) : Prop :=
  PrimFloat.ltb (score b) (score a) = true
  \/ (PrimFloat.eqb (score a) (score b) = true
      /\ sequenceIndex (hit a) <= sequenceIndex (hit b)).

(** Modelled from the spec: a hit whose score is a number (the store's
    code is not in src/); a cosine similarity is not a number when it is a
    quotient of infinities or of zeros. *)
Definition numeric (h : Hit) : Prop := PrimFloat.is_nan (score h) = false.

(** Modelled from the spec: the store's failures as thrown errors (its code
    is not in src/). *)
Definition describe (e : IndexError) : JsError :=
  match e with
  | DimensionMismatch => {| message := "DimensionMismatch" |}
  | EmptyIndex => {| message := "EmptyIndex" |}
  end.

End VectorIndex.

(* ================================================================== *)
(** * Effects of the script                                            *)
(* ================================================================== *)

Record Message := { role : string; content : string }.

(** An argument of [console.error]. *)
Inductive Arg :=
| Str (s : string)
| Obj (e : JsError).

(** What a run does that can be observed from outside: console output, the
    calls to the external services and to the readline interface, and the
    end of the process. *)
Inductive Event :=
| ConsoleLog (s : string)
| ConsoleError (args : list Arg)
| ConsoleTime (label : string)
| ConsoleTimeLog (label : string) (s : string)
| ConsoleTimeEnd (label : string)
| Fetch (url : string)
| EmbedDocuments (texts : list string)
| EmbedQuery (question : string)
| Invoke (messages : list Message)
| RlPrompt
| RlClose
| ProcessExit (code : Z)
| Uncaught (e : JsError).

Definition Trace := list Event.

(** How a piece of the script ends: normally, by an exception (a rejected
    promise), or by [process.exit]. *)
Inductive Completion (A : Type) :=
| Normal (a : A)
| Throw (e : JsError)
| Exit (code : Z).
Arguments Normal {A} a.
Arguments Throw {A} e.
Arguments Exit {A} code.

(** A computation of the script: the events it produced and how it ended. *)
Definition Run (A : Type) : Type := Trace * Completion A.

Definition ret {A} (a : A) : Run A := ([], Normal a).

Definition bind {A B} (m : Run A) (k : A -> Run B) : Run B :=
  match m with
  | (t, Normal a) => let (t', c) := k a in ((t ++ t')%list, c)
  | (t, Throw e) => (t, Throw e)
  | (t, Exit code) => (t, Exit code)
  end.

Declare Scope run_scope.
Delimit Scope run_scope with run.
Notation "x <- m ;; k" := (bind m (fun x => k))
  (at level 61, m at next level, right associativity) : run_scope.
Notation "m ;; k" := (bind m (fun _ => k))
  (at level 61, right associativity) : run_scope.
Local Open Scope run_scope.

Definition emit (e : Event) : Run unit := ([e], Normal tt).

Definition throw {A} (e : JsError) : Run A := ([], Throw e).

(** [await p]: the value of a fulfilled promise, or its rejection thrown. *)
Definition await {A} (p : JsError + A) : Run A :=
  match p with
  | inl e => throw e
  | inr a => ret a
  end.

(** [process.exit(code)]: nothing after it runs, and no [catch] sees it. *)
Definition processExit {A} (code : Z) : Run A := ([ProcessExit code], Exit code).

(** [try { m } catch (err) { h err }]. *)
Definition tryCatch {A} (m : Run A) (h : JsError -> Run A) : Run A :=
  match m with
  | (t, Throw e) => let (t', c) := h e in ((t ++ t')%list, c)
  | other => other
  end.

(* ================================================================== *)
(** * The script: [main] of src/index.js                               *)
(* ================================================================== *)

(** The response of [fetch]: [response.ok], [response.statusText] and the
    promise [response.text()]. *)
Record Response := {
  ok : bool;
  statusText : string;
  text : JsError + string
}.

(** Everything outside the script.  The embedding client and the chat model
    may answer differently from one question to the next, so they take the
    number of lines read before in the session. *)
Record World := {
  input_url : string;                              (* answer to the prompt *)
  fetch : string -> JsError + Response;            (* node-fetch *)
  embedDocuments : list string -> JsError + list VectorIndex.Vector;
  embedQuery : nat -> string -> JsError + VectorIndex.Vector;
  float_sqrt : float -> float;                     (* Math.sqrt *)
  invoke : nat -> list Message -> JsError + string  (* ChatOllama.invoke *)
}.

(** Lines 29-33: the options of the splitter. *)
Definition chunkSize : nat := 1000.
Definition chunkOverlap : nat := 200.
Definition separators : list string := [Js.nl ++ Js.nl; Js.nl; " "; ""].

(** Modelled from the spec: [splitter.splitDocuments(docs)] of line 37
    (the splitter's code is not in src/): every document is chunked with
    the options of the script and its chunks carry its metadata. *)
Definition splitDocument (policy : Chunker.OverlapPolicy) (doc : Document)
  : JsError + list Document :=
  match Chunker.chunk policy (pageContent doc)
          chunkSize chunkOverlap separators with
  | inl Chunker.ConfigError => inl {| message := "ConfigError" |}
  | inr texts => inr (Chunker.number (source doc) 0 texts)
  end.

(** Modelled from the spec: [splitter.splitDocuments(docs)] of line 37
    (the splitter's code is not in src/), over the documents in order. *)
Fixpoint splitDocuments (policy : Chunker.OverlapPolicy)
    (docs : list Document) : JsError + list Document :=
  match docs with
  | [] => inr []
  | doc :: rest =>
      match splitDocument policy doc, splitDocuments policy rest with
      | inr cs, inr cs' => inr (cs ++ cs')%list
      | inl e, _ => inl e
      | _, inl e => inl e
      end
  end.

(** Modelled from the spec: [MemoryVectorStore.fromDocuments(chunks,
    embeddings)] of line 50 (the store's code is not in src/): the chunks
    are embedded in one batch, then the index is built. *)
Definition fromDocuments (w : World) (chunks : list Document)
  : Run VectorIndex.Index :=
  emit (EmbedDocuments (map pageContent chunks)) ;;
  vectors <- await (embedDocuments w (map pageContent chunks)) ;;
  match VectorIndex.build (combine vectors chunks) with
  | inl e => throw (VectorIndex.describe e)
  | inr ix => ret ix
  end.

(** Modelled from the spec:
    [vectorStore.asRetriever({ k }).getRelevantDocuments(question)] of lines
    101-102 (the store's code is not in src/), steps 1 and 2 of section 4.3:
    the question is embedded, the index queried, and the documents of the
    hits returned in ranked order. *)
Definition getRelevantDocuments (w : World) (vectorStore : VectorIndex.Index)
    (k turn : nat) (question : string) : Run (list Document) :=
  emit (EmbedQuery question) ;;
  q <- await (embedQuery w turn question) ;;
  match VectorIndex.query (float_sqrt w) vectorStore q k with
  | inl e => throw (VectorIndex.describe e)
  | inr hits => ret (map VectorIndex.hit hits)
  end.

(** Lines 65-77: the system message of the prompt template, before and
    after the placeholder of the context. *)
Definition systemBefore : string :=
  "You are an expert documentation assistant. Use the following context to answer questions about the documentation accurately and helpfully."
  ++ Js.nl ++ "Context: ".

Definition systemAfter : string :=
  Js.nl ++ "Guidelines:"
  ++ Js.nl ++ "- Provide accurate information based only on the provided context"
  ++ Js.nl ++ "- Include relevant code examples when available"
  ++ Js.nl ++ "- Mention the source document when possible"
  ++ Js.nl ++ "- If information is not in the context, clearly state that".

(** [promptTemplate.formatMessages({ context, question })] of lines
    112-115: the two messages of the template with their placeholders
    replaced. *)
Definition formatMessages (context question : string) : list Message :=
  [ {| role := "system"; content := systemBefore ++ context ++ systemAfter |};
    {| role := "human"; content := question |} ].

(** [llm.invoke(promptMessages)]. *)
Definition llmInvoke (w : World) (turn : nat) (messages : list Message)
  : Run string :=
  emit (Invoke messages) ;;
  await (invoke w turn messages).

(** Lines 10-90: everything [main] does before the first line is read.  It
    ends with the vector store the line handler closes over. *)
Definition main (policy : Chunker.OverlapPolicy) (w : World)
  : Run VectorIndex.Index :=
  emit (ConsoleLog ("🚀 Starting Markdown Documentation Assistant..." ++ Js.nl)) ;;
  let url := input_url w in
  emit (ConsoleLog (Js.nl ++ "📥 Received markdown URL: " ++ url)) ;;
  emit (ConsoleTime "Download markdown") ;;
  emit (Fetch url) ;;
  response <- await (fetch w url) ;;
  (if negb (ok response) then
     emit (ConsoleError [Str "❌ Failed to download file:";
                         Str (statusText response)]) ;;
     processExit 1
   else ret tt) ;;
  markdown <- await (text response) ;;
  emit (ConsoleTimeEnd "Download markdown") ;;
  emit (ConsoleTime "Chunk markdown") ;;
  let docs := [{| pageContent := markdown; source := url;
                  sequenceIndex := 0 |}] in
  chunks <- await (splitDocuments policy docs) ;;
  emit (ConsoleLog ("🧩 Created " ++ Js.ofNat (List.length chunks)
                    ++ " chunks")) ;;
  emit (ConsoleTimeEnd "Chunk markdown") ;;
  emit (ConsoleTime "Embedding and indexing") ;;
  vectorStore <-
    tryCatch
      (vs <- fromDocuments w chunks ;;
       emit (ConsoleLog "✅ Vector store created successfully") ;;
       ret vs)
      (fun err =>
         emit (ConsoleError [Str "❌ Failed to create vector store:";
                             Obj err]) ;;
         processExit 1) ;;
  emit (ConsoleTimeEnd "Embedding and indexing") ;;
  emit (ConsoleTime "LLM and prompt setup") ;;
  emit (ConsoleTimeEnd "LLM and prompt setup") ;;
  emit (ConsoleLog (Js.nl ++ "💬 Ready! Ask your questions about the document. Type "
                    ++ Js.quote ++ "exit" ++ Js.quote ++ " to quit.")) ;;
  emit RlPrompt ;;
  ret vectorStore.

(** The readline interface after a line: still reading, or closed. *)
Inductive LoopState := AwaitingQuestion | Closed.

(** Line 94: the test for the exit sentinel. *)
Definition isExit (line : string) : bool :=
  Js.toLowerCase (Js.trim line) =? "exit".

(** Lines 99-119: the body of the [try]. *)
Definition answer (w : World) (vectorStore : VectorIndex.Index) (turn : nat)
    (question : string) : Run unit :=
  emit (ConsoleTime "Retrieval") ;;
  relevantDocs <- getRelevantDocuments w vectorStore 5 turn question ;;
  emit (ConsoleTimeLog "Retrieval"
          ("Found " ++ Js.ofNat (List.length relevantDocs)
           ++ " relevant chunks")) ;;
  let context := Js.join (Js.nl ++ Js.nl) (map pageContent relevantDocs) in
  emit (ConsoleTimeEnd "Retrieval") ;;
  emit (ConsoleTime "Answer generation") ;;
  let promptMessages := formatMessages context question in
  response <- llmInvoke w turn promptMessages ;;
  emit (ConsoleTimeEnd "Answer generation") ;;
  emit (ConsoleLog (Js.nl ++ "📝 Answer:" ++ Js.nl ++ response ++ Js.nl)).

(** Lines 92-124: the handler of the [line] event. *)
Definition onLine (w : World) (vectorStore : VectorIndex.Index) (turn : nat)
    (line : string) : Run LoopState :=
  let question := Js.trim line in
  if Js.toLowerCase question =? "exit" then
    emit (ConsoleLog "👋 Exiting assistant. Goodbye!") ;;
    emit RlClose ;;
    ret Closed
  else
    tryCatch
      (answer w vectorStore turn question)
      (fun err =>
         emit (ConsoleError [Str "❌ Error during processing:";
                             Str (message err)])) ;;
    emit RlPrompt ;;
    ret AwaitingQuestion.

(** A session at the keyboard: the lines reach readline one at a time,
    each after the handler of the line before has finished, and none after
    the interface was closed; the end of the input leaves the handler
    waiting.  The handler of line 92 is asynchronous and is not awaited,
    and line 96 only calls [rl.close()]: lines that reach readline together
    are handled while earlier ones are still being answered, also those
    behind a sentinel.  Such input is outside [session]. *)
Fixpoint session (w : World) (vectorStore : VectorIndex.Index) (turn : nat)
    (lines : list string) : Run LoopState :=
  match lines with
  | [] => ret AwaitingQuestion
  | line :: rest =>
      st <- onLine w vectorStore turn line ;;
      match st with
      | Closed => ret Closed
      | AwaitingQuestion => session w vectorStore (S turn) rest
      end
  end.

(** Line 127, [main();], and the process around it: the events of the run
    and the exit status.  A rejection of [main()] has no handler; Node
    prints the error and ends the process with status 1. *)
Definition program (policy : Chunker.OverlapPolicy) (w : World)
    (lines : list string) : Trace * Z :=
  match (vectorStore <- main policy w ;; session w vectorStore 0 lines) with
  | (t, Normal _) => (t, 0%Z)
  | (t, Throw e) => ((t ++ [Uncaught e; ProcessExit 1])%list, 1%Z)
  | (t, Exit code) => (t, code)
  end.

(** ** Observations on a trace *)

(** A call to the Embedder for a question, or to the Generator. *)
Definition isAdapterCall (e : Event) : bool :=
  match e with
  | EmbedQuery _ | Invoke _ => true
  | _ => false
  end.

(** A diagnostic on standard error. *)
Definition isDiagnostic (e : Event) : bool :=
  match e with
  | ConsoleError _ | Uncaught _ => true
  | _ => false
  end.

(** The text a run downloads, when the download succeeds. *)
Definition fetched (w : World) : option string :=
  match fetch w (input_url w) with
  | inr response =>
      if ok response then
        match text response with
        | inr markdown => Some markdown
        | inl _ => None
        end
      else None
  | inl _ => None
  end.

(** The chunks a run indexes, when it gets as far as chunking (line 37). *)
Definition chunksOf (policy : Chunker.OverlapPolicy) (w : World)
  : option (list Document) :=
  match fetched w with
  | Some markdown =>
      match splitDocuments policy
              [{| pageContent := markdown; source := input_url w;
                  sequenceIndex := 0 |}] with
      | inr chunks => Some chunks
      | inl _ => None
      end
  | None => None
  end.

(** ** What can go wrong while the document is indexed *)

(** The failures of the INDEXING state: the download (a rejected request, a
    response that is not ok, a body that cannot be read), the embedding of
    the chunks, an index that cannot be built from the vectors (dimension
    mismatch, no entry), and a document without any chunk. *)
Inductive IndexingFailure (policy : Chunker.OverlapPolicy) (w : World)
  : Prop :=
| SourceUnreachable e :
    fetch w (input_url w) = inl e -> IndexingFailure policy w
| SourceNotOk response :
    fetch w (input_url w) = inr response -> ok response = false ->
    IndexingFailure policy w
| SourceUnreadable response e :
    fetch w (input_url w) = inr response -> ok response = true ->
    text response = inl e -> IndexingFailure policy w
| EmbeddingError chunks e :
    chunksOf policy w = Some chunks ->
    embedDocuments w (map pageContent chunks) = inl e ->
    IndexingFailure policy w
| IndexRejected chunks vectors err :
    chunksOf policy w = Some chunks ->
    embedDocuments w (map pageContent chunks) = inr vectors ->
    VectorIndex.build (combine vectors chunks) = inl err ->
    IndexingFailure policy w
| EmptyDocument :
    chunksOf policy w = Some [] -> IndexingFailure policy w.

(** How [main] can end before the prompt is shown: thrown out of, or
    stopped by [process.exit(1)] after a message on standard error. *)
Definition Stopped (r : Run VectorIndex.Index) : Prop :=
  ((exists e, snd r = Throw e)
   \/ (snd r = Exit 1%Z /\ existsb isDiagnostic (fst r) = true))
  /\ filter isAdapterCall (fst r) = []
  /\ ~ In RlPrompt (fst r).

(** The report of a vector store that could not be created (line 53). *)
Definition storeErrorLine (e : JsError) : Event :=
  ConsoleError [Str "❌ Failed to create vector store:"; Obj e].

(** A Segment within the limit of section 3: at most [maxSize] code units,
    or one piece of [ps] that is itself longer than [maxSize]. *)
Definition WithinLimit (maxSize : nat) (ps : list Chunker.Piece)
    (segment : string) : Prop :=
  String.length segment <= maxSize
  \/ exists p,
       In p ps /\ segment = Chunker.body p
       /\ maxSize < String.length (Chunker.body p).

(** The scenario of section 8: exactly two Segments, of 1000 and of 700
    code units, the second starting with the last 200 of the first. *)
Definition TwoOverlappingSegments (r : Chunker.ChunkError + list string)
  : Prop :=
  exists first second,
    r = inr [first; second]
    /\ String.length first = 1000
    /\ String.length second = 700
    /\ Js.takeFirst 200 second = Js.takeLast 200 first.

(** ** What can go wrong while a question is answered *)

(** The context string of line 108. *)
Definition contextOf (docs : list Document) : string :=
  Js.join (Js.nl ++ Js.nl) (map pageContent docs).

(** The failures of steps 1 to 4 of the ANSWERING state: the embedding of
    the question, the query of the index, the call of the model. *)
Inductive AnswerFailure (w : World) (vectorStore : VectorIndex.Index)
    (turn : nat) (question : string) : JsError -> Prop :=
| EmbeddingFails e :
    embedQuery w turn question = inl e ->
    AnswerFailure w vectorStore turn question e
| RetrievalFails q err :
    embedQuery w turn question = inr q ->
    VectorIndex.query (float_sqrt w) vectorStore q 5 = inl err ->
    AnswerFailure w vectorStore turn question (VectorIndex.describe err)
| GenerationFails q hits e :
    embedQuery w turn question = inr q ->
    VectorIndex.query (float_sqrt w) vectorStore q 5 = inr hits ->
    invoke w turn
      (formatMessages (contextOf (map VectorIndex.hit hits)) question)
    = inl e ->
    AnswerFailure w vectorStore turn question e.

(** A question every step succeeds on, and the text the model returns. *)
Definition Answered (w : World) (vectorStore : VectorIndex.Index)
    (turn : nat) (question response : string) : Prop :=
  exists q hits,
    embedQuery w turn question = inr q
    /\ VectorIndex.query (float_sqrt w) vectorStore q 5 = inr hits
    /\ invoke w turn
         (formatMessages (contextOf (map VectorIndex.hit hits)) question)
       = inr response.

(** The line the operator reads for an answer (line 119). *)
Definition answerLine (response : string) : Event :=
  ConsoleLog (Js.nl ++ "📝 Answer:" ++ Js.nl ++ response ++ Js.nl).

(** The report of a failed question (line 121). *)
Definition errorLine (e : JsError) : Event :=
  ConsoleError [Str "❌ Error during processing:"; Str (message e)].

(** Events that end the session or the process. *)
Definition isFatal (e : Event) : bool :=
  match e with
  | RlClose | ProcessExit _ | Uncaught _ => true
  | _ => false
  end.

Definition isInvoke (e : Event) : bool :=
  match e with
  | Invoke _ => true
  | _ => false
  end.

(** The context as the specification words it: the texts of the retrieved
    segments in ranked order, a blank line between two consecutive ones. *)
Fixpoint context_spec (texts : list string) : string :=
  match texts with
  | [] => ""
  | [t] => t
  | t :: rest => t ++ Js.nl ++ Js.nl ++ context_spec rest
  end.

(** The events of an answer up to and including the call of the model. *)
Definition uptoInvoke (question : string) (docs : list Document)
  : list Event :=
  [ ConsoleTime "Retrieval"; EmbedQuery question;
    ConsoleTimeLog "Retrieval"
      ("Found " ++ Js.ofNat (List.length docs) ++ " relevant chunks");
    ConsoleTimeEnd "Retrieval"; ConsoleTime "Answer generation";
    Invoke (formatMessages (contextOf docs) question) ].

(** What the handler does on the exit sentinel (lines 95-96). *)
Definition goodbye : list Event :=
  [ConsoleLog "👋 Exiting assistant. Goodbye!"; RlClose].

(** ** Further observations on a run *)

Definition isPrompt (e : Event) : bool :=
  match e with
  | RlPrompt => true
  | _ => false
  end.

(** The events after which nothing of the process runs. *)
Definition endsProcess (e : Event) : bool :=
  match e with
  | ProcessExit _ | Uncaught _ => true
  | _ => false
  end.

Definition isEmbedQuery (e : Event) : bool :=
  match e with
  | EmbedQuery _ => true
  | _ => false
  end.

Definition isFetch (e : Event) : bool :=
  match e with
  | Fetch _ => true
  | _ => false
  end.

Definition isEmbedDocuments (e : Event) : bool :=
  match e with
  | EmbedDocuments _ => true
  | _ => false
  end.

(** A line that is a question. *)
Definition isQuestion (line : string) : bool := negb (isExit line).

(** The run got through lines 19-56: the document was downloaded and
    chunked, the chunks embedded, and [ix] built from them. *)
Definition Indexed (policy : Chunker.OverlapPolicy) (w : World)
    (ix : VectorIndex.Index) : Prop :=
  exists chunks vectors,
    chunksOf policy w = Some chunks
    /\ embedDocuments w (map pageContent chunks) = inr vectors
    /\ VectorIndex.build (combine vectors chunks) = inr ix.

(** A string of white space only. *)
Fixpoint allWhiteSpace (s : string) : bool :=
  match s with
  | EmptyString => true
  | String c s' => Js.isWhiteSpace c && allWhiteSpace s'
  end.

(** The sixteen ways to write the sentinel. *)
Definition exitSpellings : list string :=
  flat_map
    (fun e =>
       flat_map
         (fun x =>
            flat_map
              (fun i => map (fun t => e ++ x ++ i ++ t) ["t"; "T"])
              ["i"; "I"])
         ["x"; "X"])
    ["e"; "E"].

(** The labels of the console timers started and not ended, the latest
    first: [console.time] starts one, [console.timeEnd] ends it. *)
Fixpoint running (started : list string) (t : Trace) : list string :=
  match t with
  | [] => started
  | ConsoleTime label :: t' => running (label :: started) t'
  | ConsoleTimeEnd label :: t' =>
      running (filter (fun l => negb (l =? label)) started) t'
  | _ :: t' => running started t'
  end.

(** The last two events of a trace. *)
Definition lastTwo (t : Trace) : list Event := rev (firstn 2 (rev t)).

(** An index whose first vector is too long for its norm: the square of
    2^600 is beyond the largest binary64 number. *)
Definition overflowStore : VectorIndex.Index :=
  {| VectorIndex.dimension := 2;
     VectorIndex.entries :=
       [ {| VectorIndex.vector := [0x1p600%float; 0%float];
            VectorIndex.segment :=
              {| pageContent := "Intro"; source := "guide.md";
                 sequenceIndex := 0 |} |};
         {| VectorIndex.vector := [0%float; 1%float];
            VectorIndex.segment :=
              {| pageContent := "Install"; source := "guide.md";
                 sequenceIndex := 1 |} |};
         {| VectorIndex.vector := [1%float; 0%float];
            VectorIndex.segment :=
              {| pageContent := "Usage"; source := "guide.md";
                 sequenceIndex := 2 |} |} ] |}.

Definition overflowQuery : VectorIndex.Vector :=
  [0x1p600%float; 0x1p-600%float].

(** ** A concrete session, for the instances below *)

Definition sampleUrl : string := "http://localhost/guide.md".

(** A world that serves [markdown], embeds every text as the same unit
    vector, and whose model is unavailable for the first question only. *)
Definition sampleWorld (markdown : string) : World :=
  {| input_url := sampleUrl;
     fetch := fun _ =>
       inr {| ok := true; statusText := "OK"; text := inr markdown |};
     embedDocuments := fun texts =>
       inr (map (fun _ => [1%float; 0%float]) texts);
     embedQuery := fun _ _ => inr [1%float; 0%float];
     float_sqrt := PrimFloat.sqrt;
     invoke := fun turn _ =>
       match turn with
       | O => inl {| message := "model unavailable" |}
       | S _ => inr "Use the install command."
       end |}.

(** The same world with a server that answers 404. *)
Definition notFoundWorld : World :=
  {| input_url := sampleUrl;
     fetch := fun _ =>
       inr {| ok := false; statusText := "Not Found"; text := inr "" |};
     embedDocuments := embedDocuments (sampleWorld "");
     embedQuery := embedQuery (sampleWorld "");
     float_sqrt := float_sqrt (sampleWorld "");
     invoke := invoke (sampleWorld "") |}.

(** A world that serves [markdown] under the same URL but has neither an
    embedding service nor a model. *)
Definition offlineWorld (markdown : string) : World :=
  {| input_url := sampleUrl;
     fetch := fun _ =>
       inr {| ok := true; statusText := "OK"; text := inr markdown |};
     embedDocuments := fun _ => inl {| message := "connection refused" |};
     embedQuery := fun _ _ => inl {| message := "connection refused" |};
     float_sqrt := PrimFloat.sqrt;
     invoke := fun _ _ => inl {| message := "connection refused" |} |}.

Definition sampleMarkdown : string :=
  "# Guide" ++ Js.nl ++ Js.nl ++ "Install it." ++ Js.nl ++ "Then run it.".

Definition sampleDoc (i : nat) (t : string) : Document :=
  {| pageContent := t; source := sampleUrl; sequenceIndex := i |}.

(** An index of three segments; the second and the third score the same
    against the query vector (1, 0). *)
Definition sampleStore : VectorIndex.Index :=
  {| VectorIndex.dimension := 2;
     VectorIndex.entries :=
       [ {| VectorIndex.vector := [0%float; 1%float];
            VectorIndex.segment := sampleDoc 0 "Intro" |};
         {| VectorIndex.vector := [1%float; 0%float];
            VectorIndex.segment := sampleDoc 1 "Install" |};
         {| VectorIndex.vector := [2%float; 0%float];
            VectorIndex.segment := sampleDoc 2 "Usage" |} ] |}.

(* ================================================================== *)
(** * Properties                                                       *)
(* ================================================================== *)

(** ** The string and array primitives *)

Example trim_demo : Js.toLowerCase (Js.trim "  Exit  ") = "exit".
Proof. reflexivity. Qed.

Example join_demo : Js.join "--" ["a"; "b"; "c"] = "a--b--c".
Proof. reflexivity. Qed.

Lemma append_assoc (a b c : string) : (a ++ b) ++ c = a ++ (b ++ c).
Proof. induction a as [|x a IH]; simpl; [reflexivity | now rewrite IH]. Qed.

Lemma append_empty_r (a : string) : a ++ "" = a.
Proof. induction a as [|x a IH]; simpl; [reflexivity | now rewrite IH]. Qed.

(** What [join] appends after the first element. *)
Lemma join_from_later (sep : string) (xs : list string) :
  forall k R,
    0 < k ->
    Js.join_from sep k R xs
    = R ++ fold_right (fun x acc => sep ++ x ++ acc) "" xs.
Proof.
  induction xs as [|x xs IH]; intros k R Hk; simpl.
  - now rewrite append_empty_r.
  - destruct k as [|k]; [lia|]. simpl.
    rewrite IH by lia.
    now rewrite !append_assoc.
Qed.

Lemma join_cons (sep x : string) (xs : list string) :
  Js.join sep (x :: xs)
  = x ++ fold_right (fun y acc => sep ++ y ++ acc) "" xs.
Proof.
  unfold Js.join. simpl. now rewrite join_from_later by lia.
Qed.

Lemma context_spec_cons (x : string) (xs : list string) :
  context_spec (x :: xs)
  = x ++ fold_right (fun y acc => (Js.nl ++ Js.nl) ++ y ++ acc) "" xs.
Proof.
  revert x. induction xs as [|y ys IH]; intro x.
  - simpl. now rewrite append_empty_r.
  - change (context_spec (x :: y :: ys))
      with (x ++ Js.nl ++ Js.nl ++ context_spec (y :: ys)).
    rewrite IH. cbn [fold_right]. now rewrite !append_assoc.
Qed.

(** [join] with a double newline is the context of the specification. *)
Lemma join_is_context_spec (texts : list string) :
  Js.join (Js.nl ++ Js.nl) texts = context_spec texts.
Proof.
  destruct texts as [|x xs]; [reflexivity|].
  now rewrite join_cons, context_spec_cons.
Qed.

(** ** The computations of the script *)

(** Unfolds the plumbing of [Run] and nothing of the data. *)
Ltac run_steps :=
  cbv beta iota zeta
    delta [bind emit await ret throw processExit tryCatch fst snd app].

(** The four ways the body of the [try] can end. *)
Lemma answer_embedding_fails w vs turn question e :
  embedQuery w turn question = inl e ->
  answer w vs turn question
  = ([ConsoleTime "Retrieval"; EmbedQuery question], Throw e).
Proof.
  intro H. unfold answer, getRelevantDocuments.
  run_steps. rewrite H. reflexivity.
Qed.

Lemma answer_retrieval_fails w vs turn question q err :
  embedQuery w turn question = inr q ->
  VectorIndex.query (float_sqrt w) vs q 5 = inl err ->
  answer w vs turn question
  = ([ConsoleTime "Retrieval"; EmbedQuery question],
     Throw (VectorIndex.describe err)).
Proof.
  intros H1 H2. unfold answer, getRelevantDocuments.
  run_steps. rewrite H1. run_steps. rewrite H2. reflexivity.
Qed.

Lemma answer_generation_fails w vs turn question q hits e :
  embedQuery w turn question = inr q ->
  VectorIndex.query (float_sqrt w) vs q 5 = inr hits ->
  invoke w turn
    (formatMessages (contextOf (map VectorIndex.hit hits)) question) = inl e ->
  answer w vs turn question
  = (uptoInvoke question (map VectorIndex.hit hits), Throw e).
Proof.
  intros H1 H2 H3. unfold contextOf in H3.
  unfold answer, getRelevantDocuments, llmInvoke.
  run_steps. rewrite H1. run_steps. rewrite H2. run_steps. rewrite H3.
  reflexivity.
Qed.

Lemma answer_succeeds w vs turn question q hits response :
  embedQuery w turn question = inr q ->
  VectorIndex.query (float_sqrt w) vs q 5 = inr hits ->
  invoke w turn
    (formatMessages (contextOf (map VectorIndex.hit hits)) question)
  = inr response ->
  answer w vs turn question
  = ((uptoInvoke question (map VectorIndex.hit hits)
      ++ [ConsoleTimeEnd "Answer generation"; answerLine response])%list,
     Normal tt).
Proof.
  intros H1 H2 H3. unfold contextOf in H3.
  unfold answer, getRelevantDocuments, llmInvoke.
  run_steps. rewrite H1. run_steps. rewrite H2. run_steps. rewrite H3.
  reflexivity.
Qed.

(** ** The line handler *)

Lemma onLine_exit w vs turn line :
  isExit line = true -> onLine w vs turn line = (goodbye, Normal Closed).
Proof.
  unfold isExit, onLine. intro H. rewrite H. reflexivity.
Qed.

(** A line that is not the sentinel: the handler ends with the prompt,
    after the report of the error if the body of the [try] threw. *)
Lemma onLine_question w vs turn line :
  isExit line = false ->
  onLine w vs turn line
  = match answer w vs turn (Js.trim line) with
    | (t, Normal _) => ((t ++ [RlPrompt])%list, Normal AwaitingQuestion)
    | (t, Throw e) =>
        ((t ++ [errorLine e; RlPrompt])%list, Normal AwaitingQuestion)
    | (t, Exit code) => (t, Exit code)
    end.
Proof.
  unfold isExit, onLine. intro H. rewrite H.
  destruct (answer w vs turn (Js.trim line)) as [t [[]|e|code]].
  - reflexivity.
  - unfold errorLine. cbn. now rewrite <- app_assoc.
  - reflexivity.
Qed.

Lemma uptoInvoke_not_fatal question docs :
  filter isFatal (uptoInvoke question docs) = [].
Proof. reflexivity. Qed.

(** A failure of one of the steps makes the body of the [try] throw, after
    events none of which ends the session. *)
Lemma answer_of_failure w vs turn question e :
  AnswerFailure w vs turn question e ->
  exists t, answer w vs turn question = (t, Throw e) /\ filter isFatal t = [].
Proof.
  intros [e' H | q err H1 H2 | q hits e' H1 H2 H3].
  - eexists. split; [now apply answer_embedding_fails | reflexivity].
  - eexists. split; [now apply (answer_retrieval_fails _ _ _ _ q) | reflexivity].
  - eexists. split; [now apply (answer_generation_fails _ _ _ _ q hits) |].
    apply uptoInvoke_not_fatal.
Qed.

Lemma answer_of_answered w vs turn question response :
  Answered w vs turn question response ->
  exists docs,
    answer w vs turn question
    = ((uptoInvoke question docs
        ++ [ConsoleTimeEnd "Answer generation"; answerLine response])%list,
       Normal tt).
Proof.
  intros (q & hits & H1 & H2 & H3).
  exists (map VectorIndex.hit hits). now apply (answer_succeeds _ _ _ _ q).
Qed.



Example exit_sentinel_spellings :
  map isExit ["exit"; "EXIT"; "  Exit  "; "exit now"; ""; "quit"]
  = [true; true; true; false; false; false].
Proof. reflexivity. Qed.

(** C10.  A line that trims to the empty string is not the sentinel and is
    answered like any question: the empty question is embedded and looked
    up, the model is called with it when the retrieval succeeds, and the
    handler ends waiting for the next line. *)
Theorem empty_line_is_answered w vs turn line :
  Js.trim line = "" ->
  exists t,
    onLine w vs turn line = (t, Normal AwaitingQuestion)
    /\ In (EmbedQuery "") t
    /\ forall q hits,
         embedQuery w turn "" = inr q ->
         VectorIndex.query (float_sqrt w) vs q 5 = inr hits ->
         In (Invoke (formatMessages
                       (contextOf (map VectorIndex.hit hits)) "")) t.
Proof.
  intro H.
  assert (E : isExit line = false) by (unfold isExit; now rewrite H).
  rewrite (onLine_question _ _ _ _ E), H.
  destruct (embedQuery w turn "") as [e|q] eqn:H1.
  { rewrite (answer_embedding_fails _ _ _ _ _ H1).
    eexists. split; [reflexivity|]. split; [cbn; tauto|]. discriminate. }
  destruct (VectorIndex.query (float_sqrt w) vs q 5) as [err|hits] eqn:H2.
  { rewrite (answer_retrieval_fails _ _ _ _ _ _ H1 H2).
    eexists. split; [reflexivity|]. split; [cbn; tauto|].
    intros q' hits' Hq. injection Hq as <-. rewrite H2. discriminate. }
  destruct (invoke w turn
              (formatMessages (contextOf (map VectorIndex.hit hits)) ""))
    as [e|response] eqn:H3.
  - rewrite (answer_generation_fails _ _ _ _ _ _ _ H1 H2 H3).
    eexists. split; [reflexivity|]. split; [cbn; tauto|].
    intros q' hits' Hq Hh. injection Hq as <-. rewrite H2 in Hh.
    injection Hh as <-. cbn. tauto.
  - rewrite (answer_succeeds _ _ _ _ _ _ _ H1 H2 H3).
    eexists. split; [reflexivity|]. split; [cbn; tauto|].
    intros q' hits' Hq Hh. injection Hq as <-. rewrite H2 in Hh.
    injection Hh as <-. cbn. tauto.
Qed.

Lemma empty_line_is_answered_witness :
  Js.trim "   " = ""
  /\ exists t,
       onLine (sampleWorld "Install") sampleStore 1 "   "
       = (t, Normal AwaitingQuestion)
       /\ In (EmbedQuery "") t.
Proof.
  split; [reflexivity|].
  destruct (empty_line_is_answered
              (sampleWorld "Install") sampleStore 1 "   " eq_refl)
    as (t & H1 & H2 & _).
  exists t. split; assumption.
Defined.

(** C5.  A failure while a question is embedded, looked up or answered by
    the model is caught by the handler: the error is reported, the prompt
    is shown again and nothing ends the session; and when the next line is
    a question every step succeeds on, the session prints its answer. *)
Theorem failed_question_keeps_the_session w vs turn line e :
  isExit line = false ->
  AnswerFailure w vs turn (Js.trim line) e ->
  (exists t,
     onLine w vs turn line
     = ((t ++ [errorLine e; RlPrompt])%list, Normal AwaitingQuestion)
     /\ filter isFatal t = [])
  /\ forall line' response,
       isExit line' = false ->
       Answered w vs (S turn) (Js.trim line') response ->
       exists t',
         session w vs turn [line; line'] = (t', Normal AwaitingQuestion)
         /\ In (errorLine e) t'
         /\ In (answerLine response) t'
         /\ filter isFatal t' = [].
Proof.
  intros E F.
  destruct (answer_of_failure _ _ _ _ _ F) as (t & Ht & Hfatal).
  assert (HL : onLine w vs turn line
               = ((t ++ [errorLine e; RlPrompt])%list,
                  Normal AwaitingQuestion)).
  { rewrite (onLine_question _ _ _ _ E), Ht. reflexivity. }
  split.
  - exists t. split; assumption.
  - intros line' response E' A.
    destruct (answer_of_answered _ _ _ _ _ A) as (docs & Hd).
    cbn [session]. rewrite HL, (onLine_question _ _ _ _ E'), Hd.
    eexists. split; [reflexivity|].
    split; [|split].
    + apply in_or_app. left. apply in_or_app. right. left. reflexivity.
    + apply in_or_app. right. apply in_or_app. left.
      apply in_or_app. left. apply in_or_app. right. right. left.
      reflexivity.
    + rewrite !filter_app, Hfatal, uptoInvoke_not_fatal. reflexivity.
Qed.

Lemma failed_question_keeps_the_session_witness :
  isExit "How do I install it?" = false
  /\ exists t',
       session (sampleWorld "Install") sampleStore 0
         ["How do I install it?"; "And then?"]
       = (t', Normal AwaitingQuestion)
       /\ In (errorLine {| message := "model unavailable" |}) t'
       /\ In (answerLine "Use the install command.") t'
       /\ filter isFatal t' = [].
Proof.
  split; [reflexivity|].
  refine (proj2 (failed_question_keeps_the_session
                   (sampleWorld "Install") sampleStore 0
                   "How do I install it?"
                   {| message := "model unavailable" |} eq_refl _)
            "And then?" "Use the install command." eq_refl _).
  - eapply GenerationFails; reflexivity.
  - eexists. eexists. repeat split; reflexivity.
Defined.

(** C9.  When the retrieval of a question succeeds, the model is called
    exactly once, and the context in its messages is the texts of the
    retrieved documents, in the order of the ranking, with a blank line
    between two consecutive texts and nothing else. *)
Theorem context_is_the_ranked_texts w vs turn line q hits :
  isExit line = false ->
  embedQuery w turn (Js.trim line) = inr q ->
  VectorIndex.query (float_sqrt w) vs q 5 = inr hits ->
  filter isInvoke (fst (onLine w vs turn line))
  = [Invoke
       (formatMessages
          (context_spec (map pageContent (map VectorIndex.hit hits)))
          (Js.trim line))].
Proof.
  intros E H1 H2.
  rewrite (onLine_question _ _ _ _ E).
  rewrite <- join_is_context_spec.
  fold (contextOf (map VectorIndex.hit hits)).
  destruct (invoke w turn
              (formatMessages (contextOf (map VectorIndex.hit hits))
                 (Js.trim line)))
    as [e|response] eqn:H3.
  - rewrite (answer_generation_fails _ _ _ _ _ _ _ H1 H2 H3). reflexivity.
  - rewrite (answer_succeeds _ _ _ _ _ _ _ H1 H2 H3). reflexivity.
Qed.

Lemma context_is_the_ranked_texts_witness :
  isExit "How do I install it?" = false
  /\ filter isInvoke
       (fst (onLine (sampleWorld "Install") sampleStore 1
               "How do I install it?"))
     = [Invoke
          (formatMessages
             ("Install" ++ Js.nl ++ Js.nl ++ "Usage" ++ Js.nl ++ Js.nl
              ++ "Intro")
             "How do I install it?")].
Proof.
  split; [reflexivity|].
  exact (context_is_the_ranked_texts
           (sampleWorld "Install") sampleStore 1 "How do I install it?"
           [1%float; 0%float] _ eq_refl eq_refl eq_refl).
Defined.

(** ** The ranking of the vector store *)

(** *** The order of the floating-point numbers *)

(** Splits a comparison of two specification floats into its cases. *)
Ltac by_comparison :=
  repeat match goal with
  | H : context [Pos.compare_cont Eq ?a ?b] |- _ =>
      change (Pos.compare_cont Eq a b) with (Pos.compare a b) in H
  | |- context [Pos.compare_cont Eq ?a ?b] =>
      change (Pos.compare_cont Eq a b) with (Pos.compare a b)
  end;
  repeat match goal with
  | H : context [Z.compare ?a ?b] |- _ => destruct (Z.compare_spec a b)
  | |- context [Z.compare ?a ?b] => destruct (Z.compare_spec a b)
  | H : context [Pos.compare ?a ?b] |- _ => destruct (Pos.compare_spec a b)
  | |- context [Pos.compare ?a ?b] => destruct (Pos.compare_spec a b)
  end;
  subst; cbn in *;
  try discriminate; try reflexivity; try congruence; try lia.

(** Below-or-equal composes, and the result is equality only when both
    steps are. *)
Lemma SFcompare_trans a b c x y :
  SFcompare a b = Some x -> SFcompare b c = Some y ->
  x <> Gt -> y <> Gt ->
  SFcompare a c = Some (match x, y with Eq, Eq => Eq | _, _ => Lt end).
Proof.
  destruct a as [sa|sa| |sa ma ea], b as [sb|sb| |sb mb eb],
           c as [sc|sc| |sc mc ec];
    cbn; try discriminate;
    try destruct sa; try destruct sb; try destruct sc; cbn;
    intros H1 H2 Hx Hy; injection H1 as <-; injection H2 as <-;
    try congruence; by_comparison.
Qed.

Lemma SFcompare_sym a b x :
  SFcompare a b = Some x -> SFcompare b a = Some (CompOpp x).
Proof.
  destruct a as [sa|sa| |sa ma ea], b as [sb|sb| |sb mb eb];
    cbn; try discriminate;
    try destruct sa; try destruct sb; cbn;
    intros H1; injection H1 as <-; try reflexivity; by_comparison.
Qed.

Lemma SFcompare_total a b :
  a <> S754_nan -> b <> S754_nan -> exists x, SFcompare a b = Some x.
Proof.
  destruct a, b; cbn; intros; try congruence; eauto.
Qed.

(** The three comparisons of the runtime, read off [SFcompare]. *)
Lemma ltb_compare x y :
  PrimFloat.ltb x y = true
  <-> SFcompare (Prim2SF x) (Prim2SF y) = Some Lt.
Proof.
  rewrite ltb_spec. unfold SFltb.
  destruct (SFcompare (Prim2SF x) (Prim2SF y)) as [[]|];
    split; congruence.
Qed.

Lemma eqb_compare x y :
  PrimFloat.eqb x y = true
  <-> SFcompare (Prim2SF x) (Prim2SF y) = Some Eq.
Proof.
  rewrite eqb_spec. unfold SFeqb.
  destruct (SFcompare (Prim2SF x) (Prim2SF y)) as [[]|];
    split; congruence.
Qed.

Lemma leb_compare x y :
  PrimFloat.leb x y = true
  <-> SFcompare (Prim2SF x) (Prim2SF y) = Some Lt
      \/ SFcompare (Prim2SF x) (Prim2SF y) = Some Eq.
Proof.
  rewrite leb_spec. unfold SFleb.
  destruct (SFcompare (Prim2SF x) (Prim2SF y)) as [[]|];
    split; try tauto; try congruence; intros [H|H]; congruence.
Qed.

Lemma is_nan_false x : PrimFloat.is_nan x = false -> Prim2SF x <> S754_nan.
Proof.
  unfold PrimFloat.is_nan. rewrite negb_false_iff, eqb_compare.
  intros H E. rewrite E in H. discriminate.
Qed.

(** *** The order of the hits *)

Section Ranking.
Import VectorIndex.

Lemma ranksBefore_true (a b : Hit) : ranksBefore a b = true -> RanksBefore a b.
Proof.
  unfold ranksBefore, RanksBefore.
  destruct (PrimFloat.eqb (score a) (score b)) eqn:E; intro H.
  - right. split; [reflexivity | now apply Nat.leb_le].
  - left. apply leb_compare in H. apply ltb_compare.
    destruct H as [H|H]; [exact H|].
    apply SFcompare_sym in H. apply eqb_compare in H. congruence.
Qed.

(** Of two hits whose scores are numbers, one ranks before the other. *)
Lemma ranksBefore_false (a b : Hit) :
  numeric a -> numeric b -> ranksBefore a b = false -> RanksBefore b a.
Proof.
  unfold ranksBefore, RanksBefore, numeric. intros Ha Hb.
  destruct (PrimFloat.eqb (score a) (score b)) eqn:E; intro H.
  - right. apply Nat.leb_gt in H. split; [|lia].
    apply eqb_compare in E. apply eqb_compare.
    now apply SFcompare_sym in E.
  - left. apply ltb_compare.
    destruct (SFcompare_total _ _ (is_nan_false _ Hb) (is_nan_false _ Ha))
      as ([] & Hc).
    + assert (PrimFloat.leb (score b) (score a) = true)
        by (apply leb_compare; now right).
      congruence.
    + assert (PrimFloat.leb (score b) (score a) = true)
        by (apply leb_compare; now left).
      congruence.
    + now apply SFcompare_sym in Hc.
Qed.

Lemma RanksBefore_trans (a b c : Hit) :
  RanksBefore a b -> RanksBefore b c -> RanksBefore a c.
Proof.
  unfold RanksBefore.
  rewrite !ltb_compare, !eqb_compare.
  intros [H1 | [H1 L1]] [H2 | [H2 L2]].
  - left. exact (SFcompare_trans _ _ _ Lt Lt H2 H1 ltac:(discriminate)
                   ltac:(discriminate)).
  - left. apply SFcompare_sym in H2.
    exact (SFcompare_trans _ _ _ Eq Lt H2 H1 ltac:(discriminate)
             ltac:(discriminate)).
  - left. apply SFcompare_sym in H1.
    exact (SFcompare_trans _ _ _ Lt Eq H2 H1 ltac:(discriminate)
             ltac:(discriminate)).
  - right. split; [|lia].
    exact (SFcompare_trans _ _ _ Eq Eq H1 H2 ltac:(discriminate)
             ltac:(discriminate)).
Qed.

Lemma insert_Forall (P : Hit -> Prop) (x : Hit) (l : list Hit) :
  P x -> Forall P l -> Forall P (insert x l).
Proof.
  intros Px. induction 1 as [|y l Py Hl IH]; simpl.
  - now constructor.
  - destruct (ranksBefore x y); repeat constructor; assumption.
Qed.

Lemma insert_sorted (x : Hit) (l : list Hit) :
  numeric x -> Forall numeric l ->
  StronglySorted RanksBefore l -> StronglySorted RanksBefore (insert x l).
Proof.
  intros Hx Hl. induction 1 as [|y l Hs IH Hy]; simpl.
  - repeat constructor.
  - apply Forall_cons_iff in Hl. destruct Hl as [Hny Hnl].
    destruct (ranksBefore x y) eqn:E.
    + apply ranksBefore_true in E.
      constructor; [now constructor|].
      constructor; [exact E|].
      eapply Forall_impl; [|exact Hy].
      intros z Hz. now apply (RanksBefore_trans x y z).
    + apply ranksBefore_false in E; [|assumption|assumption].
      constructor; [now apply IH|].
      now apply insert_Forall.
Qed.

Lemma rank_numeric (l : list Hit) : Forall numeric l -> Forall numeric (rank l).
Proof.
  induction 1 as [|x l Hx Hl IH]; simpl; [constructor|].
  now apply insert_Forall.
Qed.

Lemma rank_sorted (l : list Hit) :
  Forall numeric l -> StronglySorted RanksBefore (rank l).
Proof.
  induction 1 as [|x l Hx Hl IH]; simpl; [constructor|].
  apply insert_sorted; [exact Hx | now apply rank_numeric | exact IH].
Qed.

Lemma firstn_sorted (k : nat) (l : list Hit) :
  StronglySorted RanksBefore l -> StronglySorted RanksBefore (firstn k l).
Proof.
  intro H. revert k. induction H as [|x l Hs IH Hx]; intro k.
  - rewrite firstn_nil. constructor.
  - destruct k as [|k]; simpl; constructor; [apply IH|].
    apply Forall_forall. intros y Hy.
    rewrite Forall_forall in Hx. apply Hx.
    rewrite <- (firstn_skipn k l). apply in_or_app. now left.
Qed.

Lemma insert_length (x : Hit) (l : list Hit) :
  List.length (insert x l) = S (List.length l).
Proof.
  induction l as [|y l IH]; simpl; [reflexivity|].
  destruct (ranksBefore x y); simpl; [reflexivity | now rewrite IH].
Qed.

Lemma rank_length (l : list Hit) : List.length (rank l) = List.length l.
Proof.
  induction l as [|x l IH]; simpl; [reflexivity|].
  now rewrite insert_length, IH.
Qed.

(** A query returns [k] hits, or every entry when there are fewer. *)
Lemma query_length sqrt ix q k hits :
  query sqrt ix q k = inr hits ->
  List.length hits = Nat.min k (List.length (entries ix)).
Proof.
  unfold query. destruct (_ =? _)%nat; [|discriminate].
  intro H. injection H as <-.
  now rewrite length_firstn, rank_length, length_map.
Qed.

End Ranking.

(** C3, as amended.  When every score of a query is a number, the hits it
    returns are in descending order of score, and hits of equal score are
    in ascending order of sequence index: every hit ranks before all the
    hits after it. *)
Theorem numeric_scores_are_ranked sqrt ix q k hits :
  Forall (fun e => VectorIndex.numeric (VectorIndex.scoreOf sqrt q e))
    (VectorIndex.entries ix) ->
  VectorIndex.query sqrt ix q k = inr hits ->
  StronglySorted VectorIndex.RanksBefore hits.
Proof.
  intro Hn. unfold VectorIndex.query.
  destruct (_ =? _)%nat; [|discriminate].
  intro H. injection H as <-.
  apply firstn_sorted, rank_sorted.
  now apply Forall_map.
Qed.

Lemma numeric_scores_are_ranked_witness :
  exists hits,
    VectorIndex.query PrimFloat.sqrt sampleStore [1%float; 0%float] 5
    = inr hits
    /\ map (fun h => pageContent (VectorIndex.hit h)) hits
       = ["Install"; "Usage"; "Intro"]
    /\ StronglySorted VectorIndex.RanksBefore hits.
Proof.
  eexists. split; [reflexivity|]. split; [reflexivity|].
  refine (numeric_scores_are_ranked
            PrimFloat.sqrt sampleStore [1%float; 0%float] 5 _ _ eq_refl).
  repeat constructor.
Defined.

(** C3, as stated, fails.  In [overflowStore] the first vector and the
    query are so long that their norms and their dot product overflow to
    infinity; the score of the first entry is then a quotient of
    infinities, which is not a number, and the hit is returned last, after
    two hits of score 0 that it does not rank below. *)
Lemma nan_score_is_not_ranked :
  exists hits,
    VectorIndex.query PrimFloat.sqrt overflowStore overflowQuery 5
    = inr hits
    /\ map (fun h => sequenceIndex (VectorIndex.hit h)) hits = [1; 2; 0]
    /\ ~ StronglySorted VectorIndex.RanksBefore hits.
Proof.
  eexists. split; [reflexivity|]. split; [reflexivity|].
  intro H. inversion H as [|x l _ Hx]; subst.
  apply Forall_cons_iff in Hx. destruct Hx as [_ Hx].
  apply Forall_cons_iff in Hx. destruct Hx as [Hx _].
  destruct Hx as [Hx | [Hx _]]; vm_compute in Hx; discriminate.
Qed.

(** ** The indexing phase *)

(** With the options of the script the splitter never fails. *)
Lemma chunk_script_options policy t :
  Chunker.chunk policy t chunkSize chunkOverlap separators
  = inr (if t =? "" then []
         else Chunker.pack policy chunkSize chunkOverlap ""
                (Chunker.pieces chunkSize separators t)).
Proof. reflexivity. Qed.

Lemma splitDocuments_one policy doc :
  exists texts,
    Chunker.chunk policy (pageContent doc)
      chunkSize chunkOverlap separators = inr texts
    /\ splitDocuments policy [doc] = inr (Chunker.number (source doc) 0 texts).
Proof.
  eexists. split; [apply chunk_script_options|].
  cbn [splitDocuments]. unfold splitDocument.
  rewrite chunk_script_options. now rewrite app_nil_r.
Qed.

Lemma fetched_inv w markdown :
  fetched w = Some markdown ->
  exists response,
    fetch w (input_url w) = inr response
    /\ ok response = true
    /\ text response = inr markdown.
Proof.
  unfold fetched.
  destruct (fetch w (input_url w)) as [e|response]; [discriminate|].
  destruct (ok response) eqn:Hok; [|discriminate].
  destruct (text response) as [e|md] eqn:Htext; [discriminate|].
  intro H. injection H as <-. now exists response.
Qed.

Lemma chunksOf_inv policy w chunks :
  chunksOf policy w = Some chunks ->
  exists response markdown,
    fetch w (input_url w) = inr response
    /\ ok response = true
    /\ text response = inr markdown
    /\ splitDocuments policy
         [{| pageContent := markdown; source := input_url w;
             sequenceIndex := 0 |}] = inr chunks.
Proof.
  unfold chunksOf. destruct (fetched w) as [markdown|] eqn:Hf; [|discriminate].
  destruct (fetched_inv _ _ Hf) as (response & H1 & H2 & H3).
  destruct (splitDocuments policy _) as [e|cs] eqn:Hs; [discriminate|].
  intro H. injection H as <-. now exists response, markdown.
Qed.

Ltac stopped_by_throw e :=
  split; [left; exists e; reflexivity|];
  split; [reflexivity | cbn; intuition discriminate].

Ltac stopped_by_exit :=
  split; [right; split; reflexivity|];
  split; [reflexivity | cbn; intuition discriminate].

Lemma main_store_rejected policy w chunks e :
  chunksOf policy w = Some chunks ->
  fromDocuments w chunks
  = ([EmbedDocuments (map pageContent chunks)], Throw e) ->
  Stopped (main policy w) /\ In (storeErrorLine e) (fst (main policy w)).
Proof.
  intros Hc Hf.
  destruct (chunksOf_inv _ _ _ Hc)
    as (response & markdown & H1 & H2 & H3 & H4).
  unfold main. run_steps. rewrite H1. run_steps. rewrite H2.
  cbv beta iota delta [negb]. run_steps. rewrite H3. run_steps.
  rewrite H4. run_steps. rewrite Hf. run_steps.
  split; [stopped_by_exit|].
  unfold storeErrorLine. cbn. tauto.
Qed.

Lemma fromDocuments_embedding_fails w chunks e :
  embedDocuments w (map pageContent chunks) = inl e ->
  fromDocuments w chunks
  = ([EmbedDocuments (map pageContent chunks)], Throw e).
Proof.
  intro H. unfold fromDocuments. run_steps. rewrite H. reflexivity.
Qed.

Lemma fromDocuments_build_fails w chunks vectors err :
  embedDocuments w (map pageContent chunks) = inr vectors ->
  VectorIndex.build (combine vectors chunks) = inl err ->
  fromDocuments w chunks
  = ([EmbedDocuments (map pageContent chunks)],
     Throw (VectorIndex.describe err)).
Proof.
  intros H1 H2. unfold fromDocuments. run_steps. rewrite H1. run_steps.
  rewrite H2. reflexivity.
Qed.

Lemma build_no_chunk vectors :
  VectorIndex.build (combine vectors (@nil Document))
  = inl VectorIndex.EmptyIndex.
Proof. destruct vectors; reflexivity. Qed.

(** Every failure of the indexing phase stops [main]. *)
Lemma indexing_failure_stops_main policy w :
  IndexingFailure policy w -> Stopped (main policy w).
Proof.
  intros [e H | response H1 H2 | response e H1 H2 H3
         | chunks e Hc He | chunks vectors err Hc Hv Hb | Hc].
  - unfold main. run_steps. rewrite H. run_steps. stopped_by_throw e.
  - unfold main. run_steps. rewrite H1. run_steps. rewrite H2.
    cbv beta iota delta [negb]. run_steps. stopped_by_exit.
  - unfold main. run_steps. rewrite H1. run_steps. rewrite H2.
    cbv beta iota delta [negb]. run_steps. rewrite H3. run_steps.
    stopped_by_throw e.
  - exact (proj1 (main_store_rejected policy w chunks e Hc
                    (fromDocuments_embedding_fails _ _ _ He))).
  - exact (proj1 (main_store_rejected policy w chunks _ Hc
                    (fromDocuments_build_fails _ _ vectors err Hv Hb))).
  - destruct (embedDocuments w (map pageContent [])) as [e|vectors] eqn:He.
    + exact (proj1 (main_store_rejected policy w [] e Hc
                      (fromDocuments_embedding_fails _ _ _ He))).
    + exact (proj1 (main_store_rejected policy w [] _ Hc
                      (fromDocuments_build_fails _ _ vectors _ He
                         (build_no_chunk vectors)))).
Qed.

(** A run whose [main] was stopped is the same whatever is typed, ends
    with a status other than 0, and has a diagnostic on standard error. *)
Lemma stopped_program policy w lines :
  Stopped (main policy w) ->
  program policy w lines = program policy w []
  /\ snd (program policy w lines) = 1%Z
  /\ existsb isDiagnostic (fst (program policy w lines)) = true
  /\ filter isAdapterCall (fst (program policy w lines)) = []
  /\ ~ In RlPrompt (fst (program policy w lines)).
Proof.
  unfold Stopped, program.
  destruct (main policy w) as [t c]. cbn [fst snd].
  intros ([[e ->] | [-> Hd]] & Hcalls & Hprompt); cbn [bind fst snd].
  - repeat split.
    + rewrite existsb_app. cbn. now rewrite orb_true_r.
    + rewrite filter_app, Hcalls. reflexivity.
    + intro Hin. apply in_app_or in Hin. destruct Hin as [Hin|Hin];
        [now apply Hprompt | cbn in Hin; intuition discriminate].
  - repeat split; assumption.
Qed.

(** C7.  Whatever fails while the document is indexed (the download, the
    embedding of the chunks, the construction of the index, a document
    without content), the run ends with status 1 after a diagnostic on
    standard error; the prompt is never shown, no line is read and neither
    the embedder nor the model is called for a question. *)
Theorem indexing_failure_is_fatal policy w lines :
  IndexingFailure policy w ->
  snd (program policy w lines) = 1%Z
  /\ existsb isDiagnostic (fst (program policy w lines)) = true
  /\ program policy w lines = program policy w []
  /\ ~ In RlPrompt (fst (program policy w lines))
  /\ filter isAdapterCall (fst (program policy w lines)) = [].
Proof.
  intro F.
  pose proof (indexing_failure_stops_main policy w F) as Hs.
  destruct (stopped_program policy w lines Hs) as (H1 & H2 & H3 & H4 & H5).
  repeat split; assumption.
Qed.

Lemma indexing_failure_is_fatal_witness :
  IndexingFailure Chunker.KeepOverlap notFoundWorld
  /\ snd (program Chunker.KeepOverlap notFoundWorld
            ["How do I install it?"]) = 1%Z
  /\ existsb isDiagnostic
       (fst (program Chunker.KeepOverlap notFoundWorld
               ["How do I install it?"])) = true.
Proof.
  assert (F : IndexingFailure Chunker.KeepOverlap notFoundWorld).
  { eapply SourceNotOk; reflexivity. }
  split; [exact F|].
  destruct (indexing_failure_is_fatal Chunker.KeepOverlap notFoundWorld
              ["How do I install it?"] F) as (H1 & H2 & _).
  split; assumption.
Defined.

(** An empty document has no chunk. *)
Lemma empty_text_has_no_chunk policy w :
  fetched w = Some "" -> chunksOf policy w = Some [].
Proof. unfold chunksOf. intros ->. reflexivity. Qed.

(** C4.  An index cannot be built from no entry: [build] fails with
    [EmptyIndex].  In a run whose document yields no chunk the failure is
    caught where the store is created: the run ends with status 1 before
    the prompt is shown, whatever is typed, and neither the embedder nor
    the model is called for a question; when the embedding client accepted
    the empty batch, the error reported is [EmptyIndex]. *)
Theorem empty_index_is_refused :
  VectorIndex.build [] = inl VectorIndex.EmptyIndex
  /\ forall policy w lines,
       chunksOf policy w = Some [] ->
       snd (program policy w lines) = 1%Z
       /\ program policy w lines = program policy w []
       /\ ~ In RlPrompt (fst (program policy w lines))
       /\ filter isAdapterCall (fst (program policy w lines)) = []
       /\ forall vectors,
            embedDocuments w [] = inr vectors ->
            In (storeErrorLine
                  (VectorIndex.describe VectorIndex.EmptyIndex))
               (fst (program policy w lines)).
Proof.
  split; [reflexivity|].
  intros policy w lines Hc.
  pose proof (indexing_failure_stops_main policy w
                (EmptyDocument policy w Hc)) as Hs.
  destruct (stopped_program policy w lines Hs) as (H1 & H2 & _ & H4 & H5).
  repeat split; try assumption.
  intros vectors He.
  pose proof (main_store_rejected policy w [] _ Hc
                (fromDocuments_build_fails w [] vectors _ He
                   (build_no_chunk vectors))) as [_ Hin].
  unfold program. destruct Hs as [Hend _].
  destruct (main policy w) as [t c]. cbn [fst snd] in *.
  destruct Hend as [[e ->] | [-> _]]; cbn [bind fst].
  - apply in_or_app. now left.
  - exact Hin.
Qed.

Lemma empty_index_is_refused_witness :
  chunksOf Chunker.KeepOverlap (sampleWorld "") = Some []
  /\ snd (program Chunker.KeepOverlap (sampleWorld "")
            ["How do I install it?"]) = 1%Z
  /\ In (storeErrorLine (VectorIndex.describe VectorIndex.EmptyIndex))
        (fst (program Chunker.KeepOverlap (sampleWorld "")
                ["How do I install it?"])).
Proof.
  split; [reflexivity|].
  destruct (proj2 empty_index_is_refused Chunker.KeepOverlap
              (sampleWorld "") ["How do I install it?"] eq_refl)
    as (H1 & _ & _ & _ & H5).
  split; [exact H1 | exact (H5 [] eq_refl)].
Defined.

(** ** The splitter *)

(** C6.  The text made of 1500 letters A, chunked with a maximum size of
    1000 and an overlap of 200, gives exactly two Segments, of 1000 and of
    700 letters, the second starting with the last 200 letters of the
    first: with the empty separator alone, with the separators of the
    script, and under either reading of the overlap rule. *)
Theorem scenario_1500_letters policy :
  TwoOverlappingSegments
    (Chunker.chunk policy (Js.repeat "A" 1500) 1000 200 [""])
  /\ TwoOverlappingSegments
       (Chunker.chunk policy (Js.repeat "A" 1500)
          chunkSize chunkOverlap separators).
Proof.
  split; exists (Js.repeat "A" 1000), (Js.repeat "A" 700);
    (split; [destruct policy; vm_compute; reflexivity|]);
    repeat split; vm_compute; reflexivity.
Qed.

(** The chunks of [chunksOf] are the ones [main] hands to the store. *)
Lemma main_embeds_chunks policy w chunks :
  chunksOf policy w = Some chunks ->
  In (EmbedDocuments (map pageContent chunks)) (fst (main policy w)).
Proof.
  intro Hc.
  destruct (chunksOf_inv _ _ _ Hc)
    as (response & markdown & H1 & H2 & H3 & H4).
  unfold main. run_steps. rewrite H1. run_steps. rewrite H2.
  cbv beta iota delta [negb]. run_steps. rewrite H3. run_steps.
  rewrite H4. run_steps. unfold fromDocuments. run_steps.
  destruct (embedDocuments w (map pageContent chunks)) as [e|vectors];
    run_steps; [cbn; tauto|].
  destruct (VectorIndex.build (combine vectors chunks)) as [err|ix];
    run_steps; cbn; tauto.
Qed.

(** ** The two readings of the overlap rule *)

Section FitOverlap.
Import Chunker.
Variables maxSize overlap : nat.

Lemma close_within all buf :
  WithinLimit maxSize all buf -> Forall (WithinLimit maxSize all) (close buf).
Proof.
  intro H. unfold close.
  destruct (buf =? ""); [constructor|].
  constructor; [exact H | constructor].
Qed.

Lemma reopen_within all closed p :
  In p all ->
  WithinLimit maxSize all (reopen FitOverlap maxSize overlap closed p).
Proof.
  intro Hp. unfold reopen.
  destruct (Nat.leb_spec (String.length (add (Js.takeLast overlap closed) p))
              maxSize) as [Hfit|Hlong].
  - now left.
  - destruct (Nat.le_gt_cases (String.length (body p)) maxSize) as [Hs|Hs].
    + now left.
    + right. now exists p.
Qed.

(** Under the reading that lets the overlap go when it does not fit, every
    window is within the limit. *)
Lemma pack_fit_within all :
  forall ps buf,
    incl ps all ->
    WithinLimit maxSize all buf ->
    Forall (WithinLimit maxSize all) (pack FitOverlap maxSize overlap buf ps).
Proof.
  induction ps as [|p rest IH]; intros buf Hincl Hbuf; cbn [pack].
  - now apply close_within.
  - assert (Hp : In p all) by (apply Hincl; now left).
    assert (Hrest : incl rest all).
    { intros x Hx. apply Hincl. now right. }
    destruct (Nat.leb_spec (String.length (add buf p)) maxSize) as [Hfit|_].
    + apply IH; [exact Hrest | now left].
    + apply Forall_app. split; [now apply close_within|].
      apply IH; [exact Hrest | now apply reopen_within].
Qed.

Lemma chunk_fit_within text seps segments :
  chunk FitOverlap text maxSize overlap seps = inr segments ->
  Forall (WithinLimit maxSize (pieces maxSize seps text)) segments.
Proof.
  unfold chunk. destruct (_ && _)%bool; [|discriminate].
  intro H. injection H as <-.
  destruct (text =? ""); [constructor|].
  apply pack_fit_within; [apply incl_refl | left; cbn; lia].
Qed.

Lemma reglue_bodies (P : string -> Prop) g ps :
  Forall (fun p => P (body p)) ps ->
  Forall (fun p => P (body p)) (reglue g ps).
Proof.
  intros [|p rest Hp Hrest]; cbn; constructor; assumption.
Qed.

Lemma chars_length text q : In q (chars text) -> String.length q = 1.
Proof.
  unfold chars. intro H. apply in_map_iff in H.
  destruct H as (c & <- & _). reflexivity.
Qed.

Hypothesis maxSize_positive : 0 < maxSize.

(** With the empty separator in the list, no piece is longer than the
    maximum size: a text too long for every other separator is cut between
    its characters. *)
Lemma pieces_fit seps :
  In "" seps ->
  forall text,
    Forall (fun p => String.length (body p) <= maxSize)
      (pieces maxSize seps text).
Proof.
  induction seps as [|sep finer IH]; intros Hin text; [destruct Hin|].
  cbn [pieces].
  destruct (Nat.leb_spec (String.length text) maxSize) as [Hs|Hl].
  { repeat constructor. exact Hs. }
  assert (Hfiner : sep <> "" -> In "" finer).
  { intro Hne. destruct Hin as [Heq|Hf]; [congruence | exact Hf]. }
  destruct (occurs sep text) eqn:Ho.
  - apply Forall_flat_map, Forall_forall. intros q Hq.
    apply filter_In in Hq. destruct Hq as [Hq _].
    destruct (Nat.ltb_spec maxSize (String.length q)) as [Hqlong|Hqfit].
    + apply reglue_bodies with (P := fun b => String.length b <= maxSize).
      apply IH. apply Hfiner. intros ->.
      apply chars_length in Hq. lia.
    + repeat constructor. exact Hqfit.
  - apply IH, Hfiner. intros ->. destruct text; discriminate.
Qed.

End FitOverlap.

(** With a list of separators that contains the empty one, the Segments
    of that reading are all within the maximum size. *)
Lemma fit_overlap_respects_max_size text maxSize overlap seps segments :
  In "" seps ->
  Chunker.chunk Chunker.FitOverlap text maxSize overlap seps = inr segments ->
  Forall (fun segment => String.length segment <= maxSize) segments.
Proof.
  intros Hin Hc.
  assert (Hpos : 0 < maxSize).
  { unfold Chunker.chunk in Hc.
    destruct (Nat.ltb_spec 0 maxSize) as [H|H]; [exact H | discriminate]. }
  pose proof (pieces_fit maxSize Hpos seps Hin text) as Hp.
  eapply Forall_impl; [|exact (chunk_fit_within maxSize overlap _ _ _ Hc)].
  intros seg [Hs | (p & Hinp & -> & Hlong)]; [exact Hs|].
  rewrite Forall_forall in Hp. specialize (Hp p Hinp). lia.
Qed.

(** The windows of a short text, where the overlap fits. *)
Example chunk_with_overlap policy :
  Chunker.chunk policy "aaaa bbbb cccc dddd" 10 4 [" "; ""]
  = inr ["aaaa bbbb"; "bbbb cccc"; "cccc dddd"].
Proof. destruct policy; reflexivity. Qed.

(** Where the copied overlap and the next piece do not fit together, the
    two readings part: one gives a window longer than the maximum size, the
    other a window that does not start with the end of the one before. *)
Example overlap_readings_differ :
  Chunker.chunk Chunker.KeepOverlap "aaaaaaaa bbbbbbbb" 10 5 [" "; ""]
  = inr ["aaaaaaaa"; "aaaaa bbbbbbbb"]
  /\ Chunker.chunk Chunker.FitOverlap "aaaaaaaa bbbbbbbb" 10 5 [" "; ""]
     = inr ["aaaaaaaa"; "bbbbbbbb"].
Proof. split; reflexivity. Qed.

(** A word longer than the maximum size is cut between characters when the
    empty separator is the last of the list, its characters being packed
    with the pieces around it, and is kept whole otherwise. *)
Example long_word policy :
  Chunker.chunk policy "ab cdefghij kl" 4 0 [" "; ""]
  = inr ["ab c"; "defg"; "hij"; "kl"]
  /\ Chunker.chunk policy "ab cdefghij kl" 4 0 [" "]
     = inr ["ab"; "cdefghij"; "kl"].
Proof. destruct policy; split; reflexivity. Qed.

(* ================================================================== *)
(** * Further properties of the script                                 *)
(* ================================================================== *)

(** ** One line *)

(** The four ways the handler deals with a question, with all it does. *)
Lemma onLine_forms w vs turn line :
  isExit line = false ->
  let question := Js.trim line in
  (exists e,
     embedQuery w turn question = inl e
     /\ onLine w vs turn line
        = ([ConsoleTime "Retrieval"; EmbedQuery question;
            errorLine e; RlPrompt], Normal AwaitingQuestion))
  \/ (exists q err,
        embedQuery w turn question = inr q
        /\ VectorIndex.query (float_sqrt w) vs q 5 = inl err
        /\ onLine w vs turn line
           = ([ConsoleTime "Retrieval"; EmbedQuery question;
               errorLine (VectorIndex.describe err); RlPrompt],
              Normal AwaitingQuestion))
  \/ (exists q hits e,
        embedQuery w turn question = inr q
        /\ VectorIndex.query (float_sqrt w) vs q 5 = inr hits
        /\ invoke w turn
             (formatMessages (contextOf (map VectorIndex.hit hits)) question)
           = inl e
        /\ onLine w vs turn line
           = ((uptoInvoke question (map VectorIndex.hit hits)
               ++ [errorLine e; RlPrompt])%list, Normal AwaitingQuestion))
  \/ (exists q hits response,
        embedQuery w turn question = inr q
        /\ VectorIndex.query (float_sqrt w) vs q 5 = inr hits
        /\ invoke w turn
             (formatMessages (contextOf (map VectorIndex.hit hits)) question)
           = inr response
        /\ onLine w vs turn line
           = ((uptoInvoke question (map VectorIndex.hit hits)
               ++ [ConsoleTimeEnd "Answer generation"; answerLine response;
                   RlPrompt])%list, Normal AwaitingQuestion)).
Proof.
  intros E question. subst question.
  rewrite (onLine_question _ _ _ _ E).
  destruct (embedQuery w turn (Js.trim line)) as [e|q] eqn:H1.
  { left. exists e. split; [reflexivity|].
    now rewrite (answer_embedding_fails _ _ _ _ _ H1). }
  destruct (VectorIndex.query (float_sqrt w) vs q 5) as [err|hits] eqn:H2.
  { right. left. exists q, err. repeat split; try assumption.
    now rewrite (answer_retrieval_fails _ _ _ _ _ _ H1 H2). }
  destruct (invoke w turn
              (formatMessages (contextOf (map VectorIndex.hit hits))
                 (Js.trim line))) as [e|response] eqn:H3.
  - right. right. left. exists q, hits, e. repeat split; try assumption.
    now rewrite (answer_generation_fails _ _ _ _ _ _ _ H1 H2 H3).
  - right. right. right. exists q, hits, response.
    repeat split; try assumption.
    rewrite (answer_succeeds _ _ _ _ _ _ _ H1 H2 H3).
    now rewrite <- app_assoc.
Qed.

(** Splits on the four forms and rewrites the handler with each. *)
Ltac by_forms w vs turn line E :=
  destruct (onLine_forms w vs turn line E)
    as [(e & H1 & ->)
       | [(q & err & H1 & H2 & ->)
         | [(q & hits & e & H1 & H2 & H3 & ->)
           | (q & hits & response & H1 & H2 & H3 & ->)]]].

(** However a line is dealt with, the handler returns. *)
Lemma handler_forms_normal w vs turn line :
  exists t,
    onLine w vs turn line
    = (t, Normal (if isExit line then Closed else AwaitingQuestion)).
Proof.
  destruct (isExit line) eqn:E.
  - rewrite (onLine_exit _ _ _ _ E). now eexists.
  - by_forms w vs turn line E; now eexists.
Qed.

(** X1.  The handler never throws and never ends the process, whatever
    the line and whatever the embedder, the index and the model do: it
    returns with the interface closed for the sentinel and waiting
    otherwise, having shown the prompt once for a question and not at all
    for the sentinel. *)
Theorem handler_always_returns w vs turn line :
  exists t,
    onLine w vs turn line
    = (t, Normal (if isExit line then Closed else AwaitingQuestion))
    /\ filter endsProcess t = []
    /\ filter isPrompt t = (if isExit line then [] else [RlPrompt]).
Proof.
  destruct (isExit line) eqn:E.
  - rewrite (onLine_exit _ _ _ _ E). eexists. repeat split.
  - by_forms w vs turn line E; eexists; repeat split.
Qed.

(** X2.  The model is called exactly when the line is a question whose
    retrieval succeeded, and then once, with the context of the retrieved
    documents and the trimmed line in its own spelling; a sentinel, a
    question that could not be embedded or an index that refused the query
    never reaches the model. *)
Theorem model_called_only_after_retrieval w vs turn line :
  filter isInvoke (fst (onLine w vs turn line))
  = if isExit line then []
    else match snd (getRelevantDocuments w vs 5 turn (Js.trim line)) with
         | Normal docs =>
             [Invoke (formatMessages (contextOf docs) (Js.trim line))]
         | _ => []
         end.
Proof.
  destruct (isExit line) eqn:E.
  - now rewrite (onLine_exit _ _ _ _ E).
  - unfold getRelevantDocuments.
    by_forms w vs turn line E; run_steps; rewrite H1; run_steps;
      try rewrite H2; reflexivity.
Qed.

(** X3.  A console timer is left running exactly when a question fails:
    after an answered question and after the sentinel every timer started
    has been ended; a failure of the embedding or of the query leaves
    [Retrieval] running, a failure of the model [Answer generation]. *)
Theorem timers_after_a_line w vs turn line :
  running [] (fst (onLine w vs turn line))
  = if isExit line then []
    else match snd (answer w vs turn (Js.trim line)) with
         | Normal _ => []
         | _ =>
             match snd (getRelevantDocuments w vs 5 turn (Js.trim line)) with
             | Normal _ => ["Answer generation"]
             | _ => ["Retrieval"]
             end
         end.
Proof.
  destruct (isExit line) eqn:E.
  - now rewrite (onLine_exit _ _ _ _ E).
  - by_forms w vs turn line E.
    + rewrite (answer_embedding_fails _ _ _ _ _ H1).
      unfold getRelevantDocuments. run_steps. rewrite H1. reflexivity.
    + rewrite (answer_retrieval_fails _ _ _ _ _ _ H1 H2).
      unfold getRelevantDocuments. run_steps. rewrite H1. run_steps.
      rewrite H2. reflexivity.
    + rewrite (answer_generation_fails _ _ _ _ _ _ _ H1 H2 H3).
      unfold getRelevantDocuments. run_steps. rewrite H1. run_steps.
      rewrite H2. reflexivity.
    + rewrite (answer_succeeds _ _ _ _ _ _ _ H1 H2 H3). reflexivity.
Qed.

(** ** A session *)

(** What a question leaves of the handler: its events, and the session
    going on. *)
Lemma onLine_continues w vs turn line :
  isExit line = false ->
  onLine w vs turn line
  = (fst (onLine w vs turn line), Normal AwaitingQuestion).
Proof.
  intro E. destruct (handler_forms_normal w vs turn line) as (t & Ht).
  rewrite Ht. now rewrite E.
Qed.

Lemma session_question w vs turn line rest :
  isExit line = false ->
  session w vs turn (line :: rest)
  = ((fst (onLine w vs turn line)
      ++ fst (session w vs (S turn) rest))%list,
     snd (session w vs (S turn) rest)).
Proof.
  intro E. cbn [session]. rewrite (onLine_continues _ _ _ _ E).
  cbn [bind fst]. now destruct (session w vs (S turn) rest).
Qed.

Lemma session_sentinel w vs turn line rest :
  isExit line = true ->
  session w vs turn (line :: rest) = (goodbye, Normal Closed).
Proof.
  intro E. cbn [session]. now rewrite (onLine_exit _ _ _ _ E).
Qed.

Lemma question_events w vs turn line :
  isExit line = false ->
  filter isEmbedQuery (fst (onLine w vs turn line))
  = [EmbedQuery (Js.trim line)]
  /\ filter isPrompt (fst (onLine w vs turn line)) = [RlPrompt].
Proof.
  intro E. by_forms w vs turn line E; split; reflexivity.
Qed.

(** X6.  The handler puts a question to the embedder exactly once,
    trimmed and in its own spelling, whatever the embedder, the index and
    the model then do, and it puts nothing to the embedder for the
    sentinel. *)
Theorem question_is_embedded_once w vs turn line :
  filter isEmbedQuery (fst (onLine w vs turn line))
  = if isExit line then [] else [EmbedQuery (Js.trim line)].
Proof.
  destruct (isExit line) eqn:E.
  - now rewrite (onLine_exit _ _ _ _ E).
  - exact (proj1 (question_events w vs turn line E)).
Qed.

(** ** A run *)

(** Goes through [main] step by step, by cases on what the world answers. *)
Ltac through_main policy w :=
  unfold main; run_steps;
  destruct (fetch w (input_url w)) as [e|response] eqn:Hfetch; run_steps;
  [ | destruct (ok response) eqn:Hok; cbv beta iota delta [negb]; run_steps;
      [ destruct (text response) as [e|markdown] eqn:Htext; run_steps;
        [ | destruct (splitDocuments_one policy
                        {| pageContent := markdown; source := input_url w;
                           sequenceIndex := 0 |}) as (texts & _ & Hsplit);
            rewrite ?Hsplit; run_steps;
            unfold fromDocuments; run_steps;
            destruct (embedDocuments w _) as [e|vectors] eqn:Hembed;
            run_steps;
            [ | destruct (VectorIndex.build _) as [err|ix'] eqn:Hbuild;
                run_steps ] ]
      | ] ].

(** What [main] downloads and what it has embedded. *)
Lemma main_services policy w :
  filter isFetch (fst (main policy w)) = [Fetch (input_url w)]
  /\ filter isEmbedDocuments (fst (main policy w))
     = match chunksOf policy w with
       | Some chunks => [EmbedDocuments (map pageContent chunks)]
       | None => []
       end.
Proof.
  unfold chunksOf, fetched.
  through_main policy w; split; reflexivity.
Qed.

(** An indexed document lets [main] through to the prompt. *)
Lemma main_ready policy w ix :
  Indexed policy w ix ->
  exists t,
    main policy w = ((t ++ [RlPrompt])%list, Normal ix)
    /\ filter endsProcess t = []
    /\ filter isPrompt t = []
    /\ running [] t = [].
Proof.
  intros (chunks & vectors & Hc & He & Hb).
  destruct (chunksOf_inv _ _ _ Hc)
    as (response & markdown & H1 & H2 & H3 & H4).
  unfold main. run_steps. rewrite H1. run_steps. rewrite H2.
  cbv beta iota delta [negb]. run_steps. rewrite H3. run_steps.
  rewrite H4. run_steps. unfold fromDocuments. run_steps.
  rewrite He. run_steps. rewrite Hb. run_steps.
  eexists. split.
  - match goal with
    | |- (?l, _) = _ =>
        change l with (removelast l ++ [RlPrompt])%list
    end.
    reflexivity.
  - repeat split.
Qed.

(** Either the indexing fails or an index is built. *)
Lemma indexing_dichotomy policy w :
  IndexingFailure policy w \/ exists ix, Indexed policy w ix.
Proof.
  destruct (fetch w (input_url w)) as [e|response] eqn:Hfetch.
  { left. now apply (SourceUnreachable _ _ e). }
  destruct (ok response) eqn:Hok.
  2:{ left. now apply (SourceNotOk _ _ response). }
  destruct (text response) as [e|markdown] eqn:Htext.
  { left. now apply (SourceUnreadable _ _ response e). }
  destruct (splitDocuments_one policy
              {| pageContent := markdown; source := input_url w;
                 sequenceIndex := 0 |}) as (texts & _ & Hsplit).
  assert (Hc : chunksOf policy w
               = Some (Chunker.number (input_url w) 0 texts)).
  { unfold chunksOf, fetched. now rewrite Hfetch, Hok, Htext, Hsplit. }
  destruct (embedDocuments w
              (map pageContent (Chunker.number (input_url w) 0 texts)))
    as [e|vectors] eqn:Hembed.
  { left. now apply (EmbeddingError _ _ _ e Hc). }
  destruct (VectorIndex.build
              (combine vectors (Chunker.number (input_url w) 0 texts)))
    as [err|ix] eqn:Hbuild.
  { left. now apply (IndexRejected _ _ _ vectors err Hc). }
  right. exists ix. now exists (Chunker.number (input_url w) 0 texts), vectors.
Qed.

(** A session always returns. *)
Lemma session_returns w vs turn lines :
  exists t st,
    session w vs turn lines = (t, Normal st)
    /\ filter endsProcess t = []
    /\ filter isFetch t = []
    /\ filter isEmbedDocuments t = [].
Proof.
  revert turn. induction lines as [|l lines IH]; intro turn.
  - exists [], AwaitingQuestion. repeat split.
  - destruct (isExit l) eqn:E.
    + rewrite (session_sentinel _ _ _ _ _ E). do 2 eexists. repeat split.
    + rewrite (session_question _ _ _ _ _ E).
      destruct (IH (S turn)) as (t & st & -> & Hp & Hf & Hd).
      cbn [fst snd]. do 2 eexists. split; [reflexivity|].
      rewrite !filter_app, Hp, Hf, Hd.
      by_forms w vs turn l E; repeat split.
Qed.

(** The prompt starts and ends no timer. *)
Lemma running_before_prompt t :
  forall started,
    running started (t ++ [RlPrompt])%list = running started t.
Proof.
  induction t as [|e t IH]; intro started; [reflexivity|].
  destruct e; cbn [app running]; apply IH.
Qed.

(** The run of an indexed document: [main], then the session on the index
    it built. *)
Lemma program_ready policy w ix lines :
  Indexed policy w ix ->
  program policy w lines
  = ((fst (main policy w) ++ fst (session w ix 0 lines))%list, 0%Z).
Proof.
  intro H. destruct (main_ready _ _ _ H) as (t & Hm & _).
  destruct (session_returns w ix 0 lines) as (t' & st & Hs & _).
  unfold program. rewrite Hm. cbn [bind fst]. rewrite Hs. reflexivity.
Qed.

(** X7.  The exit status of a run is 0 or 1, and it is 0 exactly when the
    document was downloaded, chunked, embedded and indexed: whatever is
    typed afterwards, and whatever the embedder and the model do with the
    questions, cannot change the status. *)
Theorem status_tells_whether_indexing_succeeded policy w lines :
  (snd (program policy w lines) = 0%Z <-> exists ix, Indexed policy w ix)
  /\ (snd (program policy w lines) = 0%Z
      \/ snd (program policy w lines) = 1%Z).
Proof.
  destruct (indexing_dichotomy policy w) as [F | (ix & H)].
  - pose proof (indexing_failure_stops_main policy w F) as Hs.
    destruct (stopped_program policy w lines Hs) as (_ & H1 & _).
    split; [|now right]. split.
    + rewrite H1. discriminate.
    + intros (ix & H). rewrite (program_ready _ _ _ lines H) in H1.
      discriminate.
  - rewrite (program_ready _ _ _ lines H). cbn [snd].
    split; [|now left]. split; [now exists ix | reflexivity].
Qed.

(** X8.  When the indexing succeeds the questions are put to the index
    built from the chunks of the downloaded document: the run is what
    [main] does, up to its prompt, followed by the session on that index,
    and [main] leaves no console timer running. *)
Theorem ready_run_is_main_then_session policy w ix lines :
  Indexed policy w ix ->
  program policy w lines
  = ((fst (main policy w) ++ fst (session w ix 0 lines))%list, 0%Z)
  /\ snd (main policy w) = Normal ix
  /\ filter isPrompt (fst (main policy w)) = [RlPrompt]
  /\ running [] (fst (main policy w)) = [].
Proof.
  intro H. split; [now apply program_ready|].
  destruct (main_ready _ _ _ H) as (t & -> & _ & Hp & Hr).
  cbn [fst snd]. repeat split.
  - now rewrite filter_app, Hp.
  - now rewrite running_before_prompt.
Qed.

Lemma ready_run_is_main_then_session_witness :
  exists ix,
    Indexed Chunker.KeepOverlap (sampleWorld sampleMarkdown) ix
    /\ program Chunker.KeepOverlap (sampleWorld sampleMarkdown) ["exit"]
       = ((fst (main Chunker.KeepOverlap (sampleWorld sampleMarkdown))
           ++ goodbye)%list, 0%Z).
Proof.
  eexists. split.
  - exists [sampleDoc 0 sampleMarkdown], [[1%float; 0%float]].
    repeat split; reflexivity.
  - exact (proj1 (ready_run_is_main_then_session
                    Chunker.KeepOverlap (sampleWorld sampleMarkdown) _
                    ["exit"]
                    (ex_intro _ [sampleDoc 0 sampleMarkdown]
                       (ex_intro _ [[1%float; 0%float]]
                          (conj eq_refl (conj eq_refl eq_refl)))))).
Defined.

(** X9.  In every run the document is requested once, from the URL given
    at the prompt, and its chunks are embedded at most once, in one batch
    and only after a download that succeeded; no question makes the script
    download or embed the document again. *)
Theorem document_is_fetched_and_embedded_once policy w lines :
  filter isFetch (fst (program policy w lines)) = [Fetch (input_url w)]
  /\ filter isEmbedDocuments (fst (program policy w lines))
     = match chunksOf policy w with
       | Some chunks => [EmbedDocuments (map pageContent chunks)]
       | None => []
       end.
Proof.
  destruct (main_services policy w) as [Hf Hd].
  destruct (indexing_dichotomy policy w) as [F | (ix & H)].
  - pose proof (indexing_failure_stops_main policy w F) as Hs.
    unfold program. destruct Hs as [Hend _].
    destruct (main policy w) as [t c]. cbn [fst snd] in *.
    destruct Hend as [[e ->] | [-> _]]; cbn [bind fst].
    + rewrite !filter_app, Hf, Hd. split; [reflexivity|].
      now rewrite app_nil_r.
    + now split.
  - rewrite (program_ready _ _ _ lines H). cbn [fst].
    destruct (session_returns w ix 0 lines) as (t' & st & -> & _ & Hf' & Hd').
    cbn [fst]. rewrite !filter_app, Hf, Hd, Hf', Hd'.
    split; [reflexivity | now rewrite app_nil_r].
Qed.

(** ** The lines that end the session *)

Lemma trimStart_pad pre s :
  allWhiteSpace pre = true -> Js.trimStart (pre ++ s) = Js.trimStart s.
Proof.
  induction pre as [|c pre IH]; cbn; [reflexivity|].
  intro H. apply andb_prop in H. destruct H as [Hc Hpre].
  rewrite Hc. now apply IH.
Qed.

Lemma trimEnd_blank post : allWhiteSpace post = true -> Js.trimEnd post = "".
Proof.
  induction post as [|c post IH]; cbn; [reflexivity|].
  intro H. apply andb_prop in H. destruct H as [Hc Hpost].
  now rewrite (IH Hpost), Hc.
Qed.

Lemma trimEnd_pad s post :
  allWhiteSpace post = true -> Js.trimEnd (s ++ post) = Js.trimEnd s.
Proof.
  intro H. induction s as [|c s IH]; cbn.
  - now apply trimEnd_blank.
  - now rewrite IH.
Qed.

(** What [trimStart] and [trimEnd] remove is white space. *)
Lemma trimStart_split s :
  exists pre, s = pre ++ Js.trimStart s /\ allWhiteSpace pre = true.
Proof.
  induction s as [|c s (pre & Hs & Hpre)]; [now exists ""|].
  cbn [Js.trimStart]. destruct (Js.isWhiteSpace c) eqn:Hc.
  - exists (String c pre). split.
    + change (String c pre ++ Js.trimStart s)
        with (String c (pre ++ Js.trimStart s)).
      now rewrite <- Hs.
    + cbn [allWhiteSpace]. now rewrite Hc.
  - now exists "".
Qed.

Lemma trimEnd_split s :
  exists post, s = Js.trimEnd s ++ post /\ allWhiteSpace post = true.
Proof.
  induction s as [|c s (post & Hs & Hpost)]; [now exists ""|].
  cbn [Js.trimEnd]. destruct (Js.trimEnd s) as [|d t] eqn:Ht.
  - change ("" ++ post) with post in Hs. subst post.
    destruct (Js.isWhiteSpace c) eqn:Hc.
    + exists (String c s). split; [reflexivity|].
      cbn [allWhiteSpace]. now rewrite Hc.
    + now exists s.
  - exists post. split; [|exact Hpost].
    change (String c (String d t) ++ post)
      with (String c (String d t ++ post)).
    now rewrite <- Hs.
Qed.

Ltac by_code_unit c :=
  destruct c as [[] [] [] [] [] [] [] []]; vm_compute;
  intro; try discriminate; auto.

Lemma lower_e c : Js.lowerChar c = "e"%char -> c = "e"%char \/ c = "E"%char.
Proof. by_code_unit c. Qed.

Lemma lower_x c : Js.lowerChar c = "x"%char -> c = "x"%char \/ c = "X"%char.
Proof. by_code_unit c. Qed.

Lemma lower_i c : Js.lowerChar c = "i"%char -> c = "i"%char \/ c = "I"%char.
Proof. by_code_unit c. Qed.

Lemma lower_t c : Js.lowerChar c = "t"%char -> c = "t"%char \/ c = "T"%char.
Proof. by_code_unit c. Qed.

Lemma lower_exit s : Js.toLowerCase s = "exit" <-> In s exitSpellings.
Proof.
  split.
  - destruct s as [|a [|b [|c [|d [|? ?]]]]]; try discriminate.
    cbn [Js.toLowerCase]. intro H. injection H as Ha Hb Hc Hd.
    destruct (lower_e _ Ha), (lower_x _ Hb), (lower_i _ Hc), (lower_t _ Hd);
      subst; vm_compute; auto 20.
  - intro H. vm_compute in H.
    repeat (destruct H as [<- | H]; [reflexivity|]). destruct H.
Qed.

Lemma spelling_is_trimmed core :
  In core exitSpellings ->
  (forall s, Js.trimStart (core ++ s) = core ++ s) /\ Js.trimEnd core = core.
Proof.
  intro H. vm_compute in H.
  repeat (destruct H as [<- | H]; [split; reflexivity|]). destruct H.
Qed.

(** X10.  The lines that end the session are exactly the word exit, each
    letter in either case, with nothing but white space before and after
    it: a question that contains the word, or the word with anything else
    on the line, is put to the assistant like any other. *)
Theorem sentinel_lines line :
  isExit line = true
  <-> exists pre core post,
        line = pre ++ core ++ post
        /\ allWhiteSpace pre = true
        /\ allWhiteSpace post = true
        /\ In core exitSpellings.
Proof.
  unfold isExit. rewrite String.eqb_eq, lower_exit. unfold Js.trim. split.
  - intro H.
    destruct (trimStart_split line) as (pre & Hl & Hpre).
    destruct (trimEnd_split (Js.trimStart line)) as (post & Hs & Hpost).
    exists pre, (Js.trimEnd (Js.trimStart line)), post.
    repeat split; try assumption. now rewrite <- Hs.
  - intros (pre & core & post & -> & Hpre & Hpost & Hin).
    destruct (spelling_is_trimmed core Hin) as [Hstart Hend].
    now rewrite (trimStart_pad _ _ Hpre), Hstart, (trimEnd_pad _ _ Hpost), Hend.
Qed.

Example sentinel_lines_demo :
  map isExit ["exit"; " eXiT"; "exit please"; "how do I exit?"; "e x i t"]
  = [true; true; false; false; false].
Proof. reflexivity. Qed.

(** ** How a failed run ends *)

(** X11.  A run that ends with status 1 ends on its diagnostic: the last
    thing it does before the process exits is to write the error to
    standard error, and nothing is printed, downloaded or embedded after
    it. *)
Theorem failed_run_ends_on_its_diagnostic policy w lines :
  snd (program policy w lines) = 1%Z ->
  exists d,
    lastTwo (fst (program policy w lines)) = [d; ProcessExit 1]
    /\ isDiagnostic d = true.
Proof.
  unfold program.
  through_main policy w;
    try (intros _; eexists; split; reflexivity).
  destruct (session_returns w ix' 0 lines) as (t' & st & -> & _).
  discriminate.
Qed.

Lemma failed_run_ends_on_its_diagnostic_witness :
  snd (program Chunker.KeepOverlap (offlineWorld sampleMarkdown) []) = 1%Z
  /\ lastTwo (fst (program Chunker.KeepOverlap
                     (offlineWorld sampleMarkdown) []))
     = [storeErrorLine {| message := "connection refused" |};
        ProcessExit 1].
Proof.
  split; [reflexivity|].
  destruct (failed_run_ends_on_its_diagnostic Chunker.KeepOverlap
              (offlineWorld sampleMarkdown) [] eq_refl) as (d & Hd & _).
  rewrite Hd. vm_compute in Hd. injection Hd as <-. reflexivity.
Defined.
